(** * Wikipedia revision-history downloader: model and properties

    A shallow embedding of [get_revision_history.py] (harvest, streaming
    persistence, chunked re-reading, parallel cleaning) and of
    [get_latest_revision_text.py] (batched latest-revision lookup),
    followed by the properties of the specification proved on it.

    Python [str] values are sequences of Unicode code points and are modelled
    as [list N].  Integers are [Z].  Exceptions are an explicit [result]
    type.  The libraries the scripts call (Unicode tables, mwparserfromhell,
    the host's time zone, the process pool's scheduling) are either given
    their documented behaviour or taken as the fields of [Platform]. *)

From Stdlib Require Import ZArith NArith List Bool Lia String Ascii Sorted.
From stdpp Require Import base option list gmap.

Local Open Scope N_scope.

(** ** Python values *)

Definition pystr := list N.

(** An ASCII literal as a Python string. *)
Definition lit (s : string) : pystr :=
  List.map N_of_ascii (list_ascii_of_string s).
Arguments lit s%_string.

Definition nl : N := 10.

Inductive exception :=
| KeyError
| ValueError
| IncompleteJSONError
| JSONError
| ParserError
| ConnectionError.

Inductive result (A : Type) :=
| Ok (a : A)
| Raise (e : exception).
Arguments Ok {A} a.
Arguments Raise {A} e.

Global Instance result_ret : MRet result := fun _ a => Ok a.
Global Instance result_bind : MBind result := fun _ _ k r =>
  match r with
  | Ok a => k a
  | Raise e => Raise e
  end.

(** What the scripts take from their environment. *)
Class Platform := {
  (** [str.isnumeric] on one character: the Unicode Numeric_Type table. *)
  char_isnumeric : N -> bool;
  (** [mwparserfromhell.parse(s).strip_code()]. *)
  strip_code : pystr -> result pystr;
  (** UTC offset, in seconds, of the host's local time zone at POSIX time
      [u]: [time.localtime(u)] is [u + utcoffset u] read as a calendar time. *)
  utcoffset : Z -> Z
}.

(** ** Strings *)

(** [Py_UNICODE_ISSPACE], which is what [\s] matches in a [str] pattern. *)
Definition isspace (c : N) : bool :=
  ((9 <=? c) && (c <=? 13)) || ((28 <=? c) && (c <=? 32))
  || (c =? 133) || (c =? 160) || (c =? 5760)
  || ((8192 <=? c) && (c <=? 8202))
  || (c =? 8232) || (c =? 8233) || (c =? 8239) || (c =? 8287) || (c =? 12288).

(** [doc.startswith(substr)]. *)
Fixpoint startswith (doc substr : pystr) {struct substr} : bool :=
  match substr, doc with
  | [], _ => true
  | _ :: _, [] => false
  | s :: ss, d :: ds => (s =? d) && startswith ds ss
  end.

Fixpoint find_from (doc substr : pystr) (i : Z) : Z :=
  if startswith doc substr then i
  else match doc with
       | [] => (-1)%Z
       | _ :: rest => find_from rest substr (i + 1)%Z
       end.

(** [doc.find(substr)]: lowest index of an occurrence, or -1. *)
Definition find (doc substr : pystr) : Z := find_from doc substr 0.

(** [doc[:idx]] for [idx >= 0]. *)
Definition slice_to (doc : pystr) (idx : Z) : pystr := take (Z.to_nat idx) doc.

(** [substr in doc]. *)
Definition contains (doc substr : pystr) : bool :=
  negb (find doc substr =? -1)%Z.

(** [sep.join(l)]. *)
Fixpoint join (sep : pystr) (l : list pystr) : pystr :=
  match l with
  | [] => []
  | x :: rest =>
      match rest with
      | [] => x
      | _ :: _ => x ++ sep ++ join sep rest
      end
  end.

(** [token.isnumeric()]: at least one character, all of them numeric. *)
Definition isnumeric `{Platform} (token : pystr) : bool :=
  match token with
  | [] => false
  | _ :: _ => forallb char_isnumeric token
  end.

(** [WhitespaceTokenizer().tokenize(doc)]: [re.split] on [\s+] with the empty
    pieces discarded, that is the maximal runs of non-whitespace. *)
Fixpoint tokenize (doc : pystr) : list pystr :=
  match doc with
  | [] => []
  | c :: rest =>
      if isspace c then tokenize rest
      else match rest with
           | [] => [[c]]
           | d :: _ =>
               if isspace d then [c] :: tokenize rest
               else match tokenize rest with
                    | tok :: toks => (c :: tok) :: toks
                    | [] => [[c]]
                    end
           end
  end.

(** A token: not empty and free of white space. *)
Definition is_word (tok : pystr) : Prop :=
  tok <> [] /\ Forall (fun c => isspace c = false) tok.

(** ** The text cleaner, [clean_doc] *)

Definition is_ascii_digit (c : N) : bool := (48 <=? c) && (c <=? 57).

(** After an opening bracket: the greedy run of [[0-9]] digits, which has to
    be non-empty and closed by a bracket.  Returns the number of characters
    matched, the closing bracket included. *)
Fixpoint digits_then_close (s : pystr) (seen : nat) : option nat :=
  match s with
  | [] => None
  | c :: rest =>
      if is_ascii_digit c then digits_then_close rest (S seen)
      else if (c =? 93) && negb (Nat.eqb seen 0) then Some (S seen)
      else None
  end.

(** Length of the match of [\[[0-9]+\]] at the start of [s], if there is one. *)
Definition match_citation (s : pystr) : option nat :=
  match s with
  | c :: rest => if c =? 91 then S <$> digits_then_close rest 0 else None
  | [] => None
  end.

(** The scan of [re.sub]: left to right, a match is skipped whole, any other
    character is copied.  [skip] is what is left to skip of the current
    match. *)
Fixpoint re_sub_scan (skip : nat) (doc : pystr) : pystr :=
  match doc with
  | [] => []
  | c :: rest =>
      match skip with
      | S k => re_sub_scan k rest
      | O =>
          match match_citation doc with
          | Some n => re_sub_scan (n - 1) rest
          | None => c :: re_sub_scan 0 rest
          end
      end
  end.

(** [re.sub(r'\[[0-9]+\]', '', doc)]. *)
Definition remove_citations (doc : pystr) : pystr := re_sub_scan 0 doc.

Definition remove_everything_after (doc substr : pystr) : Z * pystr :=
  let substr_idx := find doc substr in
  if negb (substr_idx =? -1)%Z then (1%Z, slice_to doc substr_idx)
  else (0%Z, doc).

Definition NOTES : pystr := lit "Notes" ++ [nl].
Definition EXTERNAL_LINKS : pystr := lit "External links" ++ [nl].
Definition REFERENCES : pystr := lit "References" ++ [nl].

(** The text kept by one cut. *)
Definition cut (substr doc : pystr) : pystr :=
  snd (remove_everything_after doc substr).

(** Lines 48-50: the three cuts, each on the result of the one before. *)
Definition remove_sections (doc : pystr) : pystr :=
  let '(removed_notes, doc) := remove_everything_after doc NOTES in
  let '(removed_links, doc) := remove_everything_after doc EXTERNAL_LINKS in
  let '(removed_refs, doc) := remove_everything_after doc REFERENCES in
  doc.

(** Lines 54-57: tokenize, drop the numeric tokens, join with one space. *)
Definition remove_numbers `{Platform} (doc : pystr) : pystr :=
  let tokens := tokenize doc in
  join (lit " ") (List.filter (fun token => negb (isnumeric token)) tokens).

Definition clean_doc `{Platform} (doc : pystr) : pystr :=
  let doc := remove_sections doc in
  let doc := remove_numbers doc in
  let doc := remove_citations doc in
  doc.

(** Steps 3 and 4 of the cleaner on their own. *)
Definition numbers_then_citations `{Platform} (doc : pystr) : pystr :=
  remove_citations (remove_numbers doc).

(** A platform for running examples: on ASCII its numeric characters are the
    ten digits, as in Unicode; markup-free text is its own rendering; the host
    clock is on UTC. *)
Definition ascii_utc_platform : Platform :=
  {| char_isnumeric := is_ascii_digit;
     strip_code := fun s => Ok s;
     utcoffset := fun _ => 0%Z |}.

(** On ASCII the numeric characters are exactly the digits 0-9. *)
Definition numeric_ascii_digits `{Platform} : Prop :=
  forall c, c < 128 -> char_isnumeric c = is_ascii_digit c.

(** ** Timestamps: [datetime.strptime] and [datetime.timestamp] *)

Local Open Scope Z_scope.

(** A naive [datetime] (no time zone attached). *)
Record datetime := {
  year : Z; month : Z; day : Z; hour : Z; minute : Z; second : Z
}.

Definition digit (c : N) : option Z :=
  if is_ascii_digit c then Some (Z.of_N c - 48) else None.

(** A numeric directive whose pattern is a list of two-digit alternatives
    ([ok2]) followed by a one-digit alternative ([ok1]), tried in that order.
    Digits are the ASCII ones, which is what the API sends. *)
Definition directive (ok2 : Z -> Z -> bool) (ok1 : Z -> bool) (s : pystr)
  : option (Z * pystr) :=
  match s with
  | [] => None
  | a :: rest =>
      match digit a with
      | None => None
      | Some x =>
          match rest with
          | b :: rest' =>
              match digit b with
              | Some y =>
                  if ok2 x y then Some (10 * x + y, rest')
                  else if ok1 x then Some (x, rest) else None
              | None => if ok1 x then Some (x, rest) else None
              end
          | [] => if ok1 x then Some (x, rest) else None
          end
      end
  end.

(** [%Y]: exactly four digits. *)
Definition directive_Y (s : pystr) : option (Z * pystr) :=
  match s with
  | a :: b :: c :: d :: rest =>
      match digit a, digit b, digit c, digit d with
      | Some x, Some y, Some z, Some w =>
          Some (1000 * x + 100 * y + 10 * z + w, rest)
      | _, _, _, _ => None
      end
  | _ => None
  end.

(** [%m]: [1[0-2]|0[1-9]|[1-9]]. *)
Definition directive_m : pystr -> option (Z * pystr) :=
  directive (fun x y => ((x =? 1) && (y <=? 2)) || ((x =? 0) && (1 <=? y)))
            (fun x => 1 <=? x).

(** [%d]: [3[0-1]|[1-2]\d|0[1-9]|[1-9]| [1-9]]. *)
Definition directive_d (s : pystr) : option (Z * pystr) :=
  match s with
  | 32%N :: b :: rest =>
      match digit b with
      | Some y => if 1 <=? y then Some (y, rest) else None
      | None => None
      end
  | _ =>
      directive (fun x y => ((x =? 3) && (y <=? 1)) || (x =? 1) || (x =? 2)
                            || ((x =? 0) && (1 <=? y)))
                (fun x => 1 <=? x) s
  end.

(** [%H]: [2[0-3]|[0-1]\d|\d]. *)
Definition directive_H : pystr -> option (Z * pystr) :=
  directive (fun x y => ((x =? 2) && (y <=? 3)) || (x <=? 1)) (fun _ => true).

(** [%M]: [[0-5]\d|\d]. *)
Definition directive_M : pystr -> option (Z * pystr) :=
  directive (fun x _ => x <=? 5) (fun _ => true).

(** [%S]: [6[0-1]|[0-5]\d|\d]. *)
Definition directive_S : pystr -> option (Z * pystr) :=
  directive (fun x y => ((x =? 6) && (y <=? 1)) || (x <=? 5)) (fun _ => true).

(** A literal character of the format; the pattern is compiled with
    [IGNORECASE], so a letter matches in either case. *)
Definition literal (upper lower : N) (s : pystr) : option pystr :=
  match s with
  | c :: rest => if ((c =? upper) || (c =? lower))%N then Some rest else None
  | [] => None
  end.

Definition is_leap (y : Z) : bool :=
  (y mod 4 =? 0) && (negb (y mod 100 =? 0) || (y mod 400 =? 0)).

Definition days_in_month (y m : Z) : Z :=
  if m =? 2 then (if is_leap y then 29 else 28)
  else if (m =? 4) || (m =? 6) || (m =? 9) || (m =? 11) then 30
  else 31.

Definition days_before_year (y : Z) : Z :=
  let y := y - 1 in y * 365 + y / 4 - y / 100 + y / 400.

Fixpoint days_before_month_from (y : Z) (m : nat) : Z :=
  match m with
  | O => 0
  | S k => days_before_month_from y k + days_in_month y (Z.of_nat m)
  end.

(** Days of the year before the first of month [m]. *)
Definition days_before_month (y m : Z) : Z :=
  days_before_month_from y (Z.to_nat (m - 1)).

(** [date.toordinal]: 1 for 0001-01-01. *)
Definition toordinal (y m d : Z) : Z :=
  days_before_year y + days_before_month y m + d.

(** The checks of the [datetime] constructor. *)
Definition valid_datetime (dt : datetime) : bool :=
  (1 <=? year dt) && (year dt <=? 9999)
  && (1 <=? month dt) && (month dt <=? 12)
  && (1 <=? day dt) && (day dt <=? days_in_month (year dt) (month dt))
  && (0 <=? hour dt) && (hour dt <=? 23)
  && (0 <=? minute dt) && (minute dt <=? 59)
  && (0 <=? second dt) && (second dt <=? 59).

(** [datetime.strptime(timestamp, "%Y-%m-%dT%H:%M:%SZ")]: [ValueError] when
    the text does not match the format, when text is left over, or when the
    fields are not a date and time. *)
Definition strptime (timestamp : pystr) : result datetime :=
  let parsed :=
    '(yy, s) ← directive_Y timestamp;
    s ← literal 45 45 s;
    '(mo, s) ← directive_m s;
    s ← literal 45 45 s;
    '(dd, s) ← directive_d s;
    s ← literal 84 116 s;
    '(hh, s) ← directive_H s;
    s ← literal 58 58 s;
    '(mi, s) ← directive_M s;
    s ← literal 58 58 s;
    '(ss, s) ← directive_S s;
    s ← literal 90 122 s;
    match s with
    | [] => Some {| year := yy; month := mo; day := dd;
                    hour := hh; minute := mi; second := ss |}
    | _ :: _ => None
    end in
  match parsed with
  | Some dt => if valid_datetime dt then Ok dt else Raise ValueError
  | None => Raise ValueError
  end.

(** [(self - datetime(1970, 1, 1)) // timedelta(0, 1)]: the seconds from the
    epoch to [dt], both read on the same clock. *)
Definition seconds_since_epoch (dt : datetime) : Z :=
  (toordinal (year dt) (month dt) (day dt) - toordinal 1970 1 1) * 86400
  + hour dt * 3600 + minute dt * 60 + second dt.

(** [datetime._mktime] for a naive value with [fold = 0]: solve
    [t = local u] for [u], where [local u] is the host's wall clock at POSIX
    time [u]. *)
Definition mktime `{Platform} (dt : datetime) : Z :=
  let local u := u + utcoffset u in
  let t := seconds_since_epoch dt in
  let a := local t - t in
  let u1 := t - a in
  let t1 := local u1 in
  let search_b :=
    if t1 =? t then
      let u2 := u1 - 24 * 3600 in
      let b := local u2 - u2 in
      if a =? b then None else Some b
    else Some (t1 - u1) in
  match search_b with
  | None => u1
  | Some b =>
      let u2 := t - b in
      let t2 := local u2 in
      if t2 =? t then u2
      else if t1 =? t then u1
      else Z.max u1 u2
  end.

(** [int(dt_object.timestamp())]; a naive [datetime] is taken to be on the
    host's local time. *)
Definition unix_timestamp `{Platform} (dt : datetime) : Z := mktime dt.

(** ** Pass 1: harvest and streaming persistence *)

(** A revision object of an API response: the keys ['timestamp'] and ['*']
    may each be missing. *)
Record api_revision := {
  rev_timestamp : option pystr;
  rev_star : option pystr
}.

(** One API response: [page["revisions"]] of its only page, and
    [data['continue']['rvcontinue']] when the key ['continue'] is there. *)
Record api_response := {
  resp_revisions : list api_revision;
  resp_continue : option pystr
}.

(** An element of [revisions_data]. *)
Record revision := {
  timestamp : pystr;
  content : pystr
}.

(** A record of the persisted collection, [revision_entry]. *)
Record revision_entry := {
  entry_timestamp : Z;
  entry_content : pystr
}.

(** What has been written to the collection file, in order: the text of an
    [f.write] or the object of a [json.dump]. *)
Inductive fwrite :=
| Text (s : pystr)
| Dump (e : revision_entry).

Definition file := list fwrite.

Definition JSON_HEAD : pystr := lit "[" ++ [nl].
Definition SEPARATOR : pystr := lit "," ++ [nl].
Definition JSON_TAIL : pystr := [nl] ++ lit "]".

(** The loop of [write_revisions] from index [i]; [len] is
    [len(revisions_data)].  What was written stays in the file when
    [strptime] raises. *)
Fixpoint write_revisions_from `{Platform} (i len : Z) (f : file)
    (revisions_data : list revision) : file * result unit :=
  match revisions_data with
  | [] => (f, Ok tt)
  | revision :: rest =>
      let text := content revision in
      match strptime (timestamp revision) with
      | Raise e => (f, Raise e)
      | Ok dt_object =>
          let revision_entry :=
            {| entry_timestamp := unix_timestamp dt_object;
               entry_content := text |} in
          let f := f ++ [Dump revision_entry] in
          let f := if i <? len - 1 then f ++ [Text SEPARATOR] else f in
          write_revisions_from (i + 1) len f rest
      end
  end.

Definition write_revisions `{Platform} (f : file)
    (revisions_data : list revision) : file * result unit :=
  write_revisions_from 0 (Z.of_nat (length revisions_data)) f revisions_data.

(** Lines 114-122: keep the revisions that have both keys. *)
Fixpoint complete_revisions (revisions : list api_revision) : list revision :=
  match revisions with
  | [] => []
  | rev :: rest =>
      match rev_timestamp rev, rev_star rev with
      | Some ts, Some star =>
          {| timestamp := ts; content := star |} :: complete_revisions rest
      | _, _ => complete_revisions rest
      end
  end.

(** The [while True] loop.  [responses] are the answers of the API to the
    successive requests; a request that gets no answer ends the run with
    [ConnectionError].  Returns the file, [revisions_written] and how the
    loop was left. *)
Fixpoint harvest_loop `{Platform} (responses : list api_response)
    (revisions_written : nat) (f : file) : file * nat * result unit :=
  match responses with
  | [] => (f, revisions_written, Raise ConnectionError)
  | data :: later =>
      let revisions_data := complete_revisions (resp_revisions data) in
      let revisions_written := (revisions_written + length revisions_data)%nat in
      match write_revisions f revisions_data with
      | (f, Raise e) => (f, revisions_written, Raise e)
      | (f, Ok _) =>
          match resp_continue data with
          | Some rvcontinue =>
              harvest_loop later revisions_written (f ++ [Text SEPARATOR])
          | None => (f ++ [Text JSON_TAIL], revisions_written, Ok tt)
          end
      end
  end.

Definition get_all_revision_ids `{Platform} (responses : list api_response)
  : file * nat * result unit :=
  harvest_loop responses 0%nat [Text JSON_HEAD].

(** The records of a file, in the order they were written. *)
Fixpoint records (f : file) : list revision_entry :=
  match f with
  | [] => []
  | Dump e :: rest => e :: records rest
  | Text _ :: rest => records rest
  end.

(** ** Pass 2: streaming reader *)

Inductive token :=
| TOpen
| TClose
| TComma
| TValue (e : revision_entry)
| TJunk (c : N).

(** The structural characters of a written text; JSON white space is
    skipped. *)
Fixpoint lex_text (s : pystr) : list token :=
  match s with
  | [] => []
  | c :: rest =>
      if ((c =? 32) || (c =? 9) || (c =? 10) || (c =? 13))%N then lex_text rest
      else if (c =? 91)%N then TOpen :: lex_text rest
      else if (c =? 93)%N then TClose :: lex_text rest
      else if (c =? 44)%N then TComma :: lex_text rest
      else TJunk c :: lex_text rest
  end.

Fixpoint tokens (f : file) : list token :=
  match f with
  | [] => []
  | Text s :: rest => lex_text s ++ tokens rest
  | Dump e :: rest => TValue e :: tokens rest
  end.

(** Where the parser stands in the top-level array. *)
Inductive position :=
| AtStart
| AfterOpen
| AfterValue
| AfterComma
| AtEnd.

(** The generator [ijson.items(file, 'item')]. *)
Record iterator := {
  it_position : position;
  it_input : list token
}.

Inductive next_result :=
| Yield (e : revision_entry) (it : iterator)
| StopIteration
| Throw (e : exception).

(** [next(json_parser)]: read on to the next element of the top-level array.
    End of input before the array is closed is [IncompleteJSONError]; a token
    out of place is [JSONError].  The elements are revision records: an
    array nested in the top-level one is outside the model and rejected. *)
Fixpoint ijson_next (pos : position) (input : list token) : next_result :=
  match input with
  | [] =>
      match pos with
      | AtEnd => StopIteration
      | _ => Throw IncompleteJSONError
      end
  | t :: rest =>
      match pos, t with
      | AtStart, TOpen => ijson_next AfterOpen rest
      | AtStart, TValue _ => ijson_next AtEnd rest
      | AfterOpen, TClose => ijson_next AtEnd rest
      | AfterOpen, TValue e =>
          Yield e {| it_position := AfterValue; it_input := rest |}
      | AfterValue, TComma => ijson_next AfterComma rest
      | AfterValue, TClose => ijson_next AtEnd rest
      | AfterComma, TValue e =>
          Yield e {| it_position := AfterValue; it_input := rest |}
      | _, _ => Throw JSONError
      end
  end.

(** [list(itertools.islice(json_parser, n))]. *)
Fixpoint islice (n : nat) (it : iterator)
  : result (list revision_entry) * iterator :=
  match n with
  | O => (Ok [], it)
  | S k =>
      match ijson_next (it_position it) (it_input it) with
      | Yield e it' =>
          match islice k it' with
          | (Ok es, it'') => (Ok (e :: es), it'')
          | (Raise err, it'') => (Raise err, it'')
          end
      | StopIteration => (Ok [], {| it_position := AtEnd; it_input := [] |})
      | Throw err => (Raise err, {| it_position := AtEnd; it_input := [] |})
      end
  end.

(** ** Pass 2: sorting and the worker pool *)

(** Insertion before the first element whose key is not smaller. *)
Fixpoint insort {A} (key : A -> Z) (x : A) (l : list A) : list A :=
  match l with
  | [] => [x]
  | y :: rest => if key x <=? key y then x :: l else y :: insort key x rest
  end.

(** [sorted(l, key=key)]: ascending by key and stable. *)
Definition sorted {A} (key : A -> Z) (l : list A) : list A :=
  foldr (insort key) [] l.

Definition process_chunk (chunk : list revision_entry) : list (Z * pystr) :=
  List.map (fun entry => (entry_timestamp entry, entry_content entry))
           (sorted entry_timestamp chunk).

Definition clean_revision `{Platform} (timestamp_content : Z * pystr)
  : result (Z * pystr) :=
  let '(timestamp, content) := timestamp_content in
  text ← strip_code content;
  mret (timestamp, clean_doc text).

(** The order in which the tasks of one [executor.map] call finish, given the
    time [finish i] at which task [i] is done. *)
Definition completion_order (finish : nat -> Z) (n : nat) : list nat :=
  sorted finish (seq 0 n).

(** A worker finishes task [i]: its result goes into future [i]. *)
Definition fill_future {A B} (fn : A -> result B) (args : list A)
    (futures : list (option (result B))) (i : nat)
  : list (option (result B)) :=
  match args !! i with
  | Some a => <[i := Some (fn a)]> futures
  | None => futures
  end.

(** One future per submitted task, filled in as the tasks finish. *)
Definition run_pool {A B} (fn : A -> result B) (args : list A)
    (order : list nat) : list (option (result B)) :=
  foldl (fill_future fn args) (replicate (length args) None) order.

(** Reading the futures in submission order; the first exception met is
    raised.  A future that no worker fills never returns. *)
Fixpoint gather {B} (futures : list (option (result B)))
  : option (result (list B)) :=
  match futures with
  | [] => Some (Ok [])
  | None :: _ => None
  | Some (Raise e) :: _ => Some (Raise e)
  | Some (Ok y) :: rest =>
      match gather rest with
      | Some (Ok ys) => Some (Ok (y :: ys))
      | other => other
      end
  end.

(** [list(executor.map(fn, args))]. *)
Definition executor_map {A B} (finish : nat -> Z) (fn : A -> result B)
    (args : list A) : option (result (list B)) :=
  gather (run_pool fn args (completion_order finish (length args))).

(** ** Pass 2: [clean_revisions_in_batches] *)

Definition chunk_size : nat := 100.

(** The state of the loop when the function is left: the list
    [clean_revisions], the number of revisions handed to the pool so far
    (not a variable of the script), and the way the loop ended. *)
Record pass2 := {
  clean_revisions : list (Z * pystr);
  submitted : nat;
  outcome : result unit
}.

(** The [for chunk in iter(..., [])] loop; [finish k] gives the finishing
    times of the tasks of the [k]-th chunk.  [None] when [fuel] iterations
    were not enough or a task never finished. *)
Fixpoint batches_loop `{Platform} (fuel : nat) (finish : nat -> nat -> Z)
    (json_parser : iterator) (acc : list (Z * pystr)) (handed : nat) (i : nat)
  : option pass2 :=
  match fuel with
  | O => None
  | S fuel' =>
      match islice chunk_size json_parser with
      | (Raise e, _) =>
          Some {| clean_revisions := acc; submitted := handed;
                  outcome := Raise e |}
      | (Ok [], _) =>
          Some {| clean_revisions := acc; submitted := handed;
                  outcome := Ok tt |}
      | (Ok chunk, json_parser) =>
          let revisions := process_chunk chunk in
          let handed := (handed + length revisions)%nat in
          match executor_map (finish i) clean_revision revisions with
          | None => None
          | Some (Raise e) =>
              Some {| clean_revisions := acc; submitted := handed;
                      outcome := Raise e |}
          | Some (Ok clean_results) =>
              batches_loop fuel' finish json_parser (acc ++ clean_results)
                           handed (S i)
          end
      end
  end.

Definition run_batches `{Platform} (finish : nat -> nat -> Z) (f : file)
  : option pass2 :=
  batches_loop (S (length (tokens f))) finish
               {| it_position := AtStart; it_input := tokens f |} [] 0%nat 1%nat.

Definition clean_revisions_in_batches `{Platform} (finish : nat -> nat -> Z)
    (f : file) : option (result (list (Z * pystr))) :=
  run ← run_batches finish f;
  match outcome run with
  | Ok _ => Some (Ok (clean_revisions run))
  | Raise e => Some (Raise e)
  end.

(** ** The driver, [__main__] *)

#[local] Set Warnings "-register-all".
Inductive json :=
| JInt (n : Z)
| JStr (s : pystr)
| JArr (l : list json)
| JObj (members : list (pystr * json)).

(** What [json.dump] writes for the list of tuples [clean_revisions]: a tuple
    is written as an array. *)
Definition json_of_clean_revisions (l : list (Z * pystr)) : json :=
  JArr (List.map (fun '(timestamp, text) => JArr [JInt timestamp; JStr text]) l).

(** The two files of a run: [<title>_<lang>.json] and
    [<title>_<lang>_clean.json]; [None] when the file does not exist. *)
Record disk := {
  collection_file : option file;
  clean_file : option json
}.

Definition main `{Platform} (responses : list api_response)
    (finish : nat -> nat -> Z) (d : disk) : option (disk * result unit) :=
  let '(f, _, harvested) := get_all_revision_ids responses in
  let d := {| collection_file := Some f; clean_file := clean_file d |} in
  match harvested with
  | Raise e => Some (d, Raise e)
  | Ok _ =>
      cleaned ← clean_revisions_in_batches finish f;
      match cleaned with
      | Raise e => Some (d, Raise e)
      | Ok clean_revisions =>
          Some ({| collection_file := Some f;
                   clean_file := Some (json_of_clean_revisions clean_revisions) |},
                Ok tt)
      end
  end.

(** ** Batched latest-revision lookup, [get_latest_revisions] *)

(** A value of [response_json["query"]["pages"]]. *)
Record page_info := {
  title : pystr;
  extract : option pystr
}.

(** An element of [response_json["query"]["normalized"]]. *)
Record normalized_entry := {
  norm_from : pystr;
  norm_to : pystr
}.

Record query_response := {
  pages : list (pystr * page_info);
  normalized : option (list normalized_entry)
}.

(** The inner [for] loop, left by [break] at the first entry whose ["to"]
    has the page's title as a substring. *)
Fixpoint lookup_original_title (inner_dict : page_info)
    (entries : list normalized_entry) (article_texts : gmap pystr pystr)
  : gmap pystr pystr :=
  match entries with
  | [] => article_texts
  | normalized_dict :: rest =>
      if contains (norm_to normalized_dict) (title inner_dict) then
        let original_title := norm_from normalized_dict in
        match extract inner_dict with
        | Some text => <[original_title := text]> article_texts
        | None => article_texts
        end
      else lookup_original_title inner_dict rest article_texts
  end.

(** [titles] goes into the request only; without a ["normalized"] key the
    loop prints a message for each page and adds nothing. *)
Definition get_latest_revisions (titles : list pystr)
    (response_json : query_response) : gmap pystr pystr :=
  foldl (fun article_texts '(page_id, inner_dict) =>
           match normalized response_json with
           | Some entries =>
               lookup_original_title inner_dict entries article_texts
           | None => article_texts
           end)
        ∅ (pages response_json).

(** ** The dump variant, [get_revision_history_for_wikievent.py] *)

Module Dump.

(** [s.replace(old, new)] for an [old] of one character. *)
Definition replace (old : N) (new : pystr) (s : pystr) : pystr :=
  flat_map (fun c => if (c =? old)%N then new else [c]) s.

(** [xml.sax.saxutils.escape(data)]: the ampersand first, then the two angle
    brackets. *)
Definition escape (data : pystr) : pystr :=
  let data := replace 38 (lit "&amp;") data in
  let data := replace 62 (lit "&gt;") data in
  let data := replace 60 (lit "&lt;") data in
  data.

(** A revision object of a response; each of the five keys may be missing. *)
Record api_revision := {
  rev_revid : option Z;
  rev_timestamp : option pystr;
  rev_user : option pystr;
  rev_userid : option Z;
  rev_star : option pystr
}.

Record api_response := {
  resp_revisions : list api_revision;
  resp_continue : option pystr
}.

(** An element of [revisions_data]. *)
Record revision := {
  revid : Z;
  timestamp : pystr;
  user : pystr;
  userid : Z;
  content : pystr
}.

(** What has been written to the export file: a template with its values. *)
Inductive xwrite :=
| Head (article_title : pystr)
| Revision (rev_id : Z) (stamp username : pystr) (user_id : Z) (bytes : nat)
           (text : pystr)
| Tail.

Definition write_revision (f : list xwrite) (rev_id : Z)
    (stamp username : pystr) (user_id : Z) (text : pystr) : list xwrite :=
  f ++ [Revision rev_id stamp username user_id (length text) text].

(** Lines 82-91: keep the revisions that have all five keys, with the user
    name and the content escaped. *)
Fixpoint complete_revisions (revisions : list api_revision) : list revision :=
  match revisions with
  | [] => []
  | rev :: rest =>
      match rev_revid rev, rev_timestamp rev, rev_user rev, rev_userid rev,
            rev_star rev with
      | Some id, Some ts, Some name, Some uid, Some star =>
          {| revid := id; timestamp := ts; user := escape name;
             userid := uid; content := escape star |}
          :: complete_revisions rest
      | _, _, _, _, _ => complete_revisions rest
      end
  end.

(** The [while True] loop of [download_revisions]; [responses] as in
    [harvest_loop]. *)
Fixpoint download_loop (responses : list api_response) (revisions_written : nat)
    (f : list xwrite) : list xwrite * nat * result unit :=
  match responses with
  | [] => (f, revisions_written, Raise ConnectionError)
  | data :: later =>
      let revisions_data := complete_revisions (resp_revisions data) in
      let revisions_written := (revisions_written + length revisions_data)%nat in
      let f :=
        foldl (fun f revision =>
                 write_revision f (revid revision) (timestamp revision)
                                (user revision) (userid revision)
                                (content revision))
              f revisions_data in
      match resp_continue data with
      | Some rvcontinue => download_loop later revisions_written f
      | None => (f ++ [Tail], revisions_written, Ok tt)
      end
  end.

Definition download_revisions (article_title : pystr)
    (responses : list api_response) : list xwrite * nat * result unit :=
  download_loop responses 0%nat [Head article_title].

(** The block written for a revision. *)
Definition block (revision : revision) : xwrite :=
  Revision (revid revision) (timestamp revision) (user revision)
           (userid revision) (length (content revision)) (content revision).

(** All the revision objects of a run of the dump variant. *)
Definition all_revisions (responses : list api_response) : list api_revision :=
  concat (List.map resp_revisions responses).

(** What every written block satisfies: no angle bracket in the user name or
    in the text, and a size that is the length of the text as written. *)
Definition escaped_block (w : xwrite) : Prop :=
  match w with
  | Revision _ _ username _ bytes text =>
      (60%N ∉ username) /\ (62%N ∉ username)
      /\ (60%N ∉ text) /\ (62%N ∉ text)
      /\ bytes = length text
  | Head _ | Tail => True
  end.


End Dump.

(** ** Vocabulary of the properties *)


(** All the revision objects of a run, in the order the API sent them. *)
Definition all_revisions (responses : list api_response) : list api_revision :=
  concat (List.map resp_revisions responses).


(** The tokens between the brackets of an array of [items]. *)
Fixpoint array_body (items : list revision_entry) : list token :=
  match items with
  | [] => []
  | e :: rest =>
      TValue e :: match rest with
                  | [] => []
                  | _ :: _ => TComma :: array_body rest
                  end
  end.

(** A file that holds one top-level JSON array of records. *)
Definition well_formed_array (f : file) : Prop :=
  exists items, tokens f = TOpen :: array_body items ++ [TClose].

(** A write of pass 1 that is neither the head nor the tail. *)
Definition record_or_separator (w : fwrite) : Prop :=
  w = Text SEPARATOR \/ exists e, w = Dump e.

(** The parser is past the opening bracket and before the closing one. *)
Definition inside_array (pos : position) : Prop :=
  pos = AfterOpen \/ pos = AfterValue \/ pos = AfterComma.

(** What is left to read after an element when [items] are still to come. *)
Definition rest_after (items : list revision_entry) (tl : list token)
  : list token :=
  match items with
  | [] => tl
  | _ :: _ => TComma :: array_body items ++ tl
  end.

(** The writes of the records [es] with their separators. *)
Fixpoint dumps (es : list revision_entry) : file :=
  match es with
  | [] => []
  | e :: rest =>
      Dump e :: match rest with
                | [] => []
                | _ :: _ => Text SEPARATOR :: dumps rest
                end
  end.

(** A collection file cut short after the records [es], with or without a
    separator behind the last of them: the head is there, the tail is not. *)
Definition truncated_collection (es : list revision_entry) (trailing : bool)
  : file :=
  Text JSON_HEAD :: dumps es ++ (if trailing then [Text SEPARATOR] else []).

(** What pass 2 hands to the workers for the records [es] of a collection:
    each run of [chunk_size] records, and the shorter last one, sorted by
    timestamp on its own.  [fuel] bounds the number of runs. *)
Fixpoint sort_within_chunks_fuel (fuel : nat) (es : list revision_entry)
  : list (Z * pystr) :=
  match fuel with
  | O => []
  | S k =>
      match es with
      | [] => []
      | _ :: _ =>
          process_chunk (take chunk_size es)
          ++ sort_within_chunks_fuel k (drop chunk_size es)
      end
  end.

Definition sort_within_chunks (es : list revision_entry) : list (Z * pystr) :=
  sort_within_chunks_fuel (length es) es.

(** The reader stands before the records [es], which are all that is left of
    a closed array. *)
Definition at_records (it : iterator) (es : list revision_entry) : Prop :=
  it = {| it_position := AfterOpen; it_input := array_body es ++ [TClose] |}
  \/ it = {| it_position := AfterValue; it_input := rest_after es [TClose] |}.

(** The example platform on a host one hour east of UTC. *)
Definition ascii_cet_platform : Platform :=
  {| char_isnumeric := is_ascii_digit;
     strip_code := fun s => Ok s;
     utcoffset := fun _ => 3600%Z |}.

(** The one-page input of the end-to-end scenario, and a disk with neither
    file on it. *)
Definition scenario_page : api_response :=
  {| resp_revisions :=
       [{| rev_timestamp := Some (lit "2020-01-01T00:00:00Z");
           rev_star := Some (lit "Hello [1] 2020 world") |}];
     resp_continue := None |}.

Definition empty_disk : disk :=
  {| collection_file := None; clean_file := None |}.

(** A collection cut short after a hundred records. *)
Definition hundred_records : file :=
  truncated_collection
    (replicate 100 {| entry_timestamp := 1577836800; entry_content := lit "text" |})
    false.

(** A first page whose only revision has no content, and a last page with one
    complete revision. *)
Definition page_all_dropped : api_response :=
  {| resp_revisions :=
       [{| rev_timestamp := Some (lit "2020-01-01T00:00:00Z");
           rev_star := None |}];
     resp_continue := Some (lit "20200102000000|2") |}.

Definition page_mixed : api_response :=
  {| resp_revisions :=
       [{| rev_timestamp := Some (lit "2020-01-01T00:00:00Z");
           rev_star := Some (lit "first") |};
        {| rev_timestamp := Some (lit "2020-01-01T12:00:00Z");
           rev_star := None |}];
     resp_continue := Some (lit "20200102000000|2") |}.

Definition page_last : api_response :=
  {| resp_revisions :=
       [{| rev_timestamp := Some (lit "2020-01-02T00:00:00Z");
           rev_star := Some (lit "text") |}];
     resp_continue := None |}.

(** * Properties *)

Local Open Scope Z_scope.

(** ** Strings and the cuts *)

Lemma find_from_shift (substr doc : pystr) (i : Z) :
  0 <= i ->
  (find_from doc substr 0 = -1 /\ find_from doc substr i = -1)
  \/ (0 <= find_from doc substr 0
      /\ find_from doc substr i = find_from doc substr 0 + i).
Proof.
  revert i. induction doc as [|c rest IH]; intros i Hi; cbn [find_from].
  - destruct (startswith [] substr); [right | left]; split; lia.
  - destruct (startswith (c :: rest) substr); [right; split; lia|].
    change (0 + 1) with 1.
    destruct (IH 1 ltac:(lia)) as [[H0 H1]|[H0 H1]];
      destruct (IH (i + 1) ltac:(lia)) as [[H0' H2]|[H0' H2]]; lia.
Qed.

(** The cut, read off the text character by character. *)
Lemma cut_nil (substr : pystr) : cut substr [] = [].
Proof.
  unfold cut, remove_everything_after, find. cbn [find_from].
  destruct (startswith [] substr); reflexivity.
Qed.

Lemma cut_cons (substr : pystr) (c : N) (rest : pystr) :
  cut substr (c :: rest) =
  if startswith (c :: rest) substr then [] else c :: cut substr rest.
Proof.
  unfold cut, remove_everything_after, find.
  cbn [find_from].
  destruct (startswith (c :: rest) substr) eqn:Hs.
  - reflexivity.
  - change (0 + 1) with 1.
    destruct (find_from_shift substr rest 1 ltac:(lia)) as [[H0 H1]|[H0 H1]].
    + rewrite H0, H1. reflexivity.
    + rewrite H1.
      destruct (find_from rest substr 0 =? -1) eqn:E0; [lia|].
      destruct (find_from rest substr 0 + 1 =? -1) eqn:E1; [lia|].
      cbn [negb snd]. unfold slice_to.
      replace (Z.to_nat (find_from rest substr 0 + 1))
        with (S (Z.to_nat (find_from rest substr 0))) by lia.
      reflexivity.
Qed.

Lemma cut_prefix (substr doc : pystr) : cut substr doc `prefix_of` doc.
Proof.
  induction doc as [|c rest IH].
  - rewrite cut_nil. reflexivity.
  - rewrite cut_cons. destruct (startswith (c :: rest) substr).
    + apply prefix_nil.
    + apply prefix_cons, IH.
Qed.

Lemma remove_sections_cuts (doc : pystr) :
  remove_sections doc = cut REFERENCES (cut EXTERNAL_LINKS (cut NOTES doc)).
Proof.
  unfold remove_sections, cut.
  destruct (remove_everything_after doc NOTES) as [n1 d1]. cbn [snd].
  destruct (remove_everything_after d1 EXTERNAL_LINKS) as [n2 d2]. cbn [snd].
  destruct (remove_everything_after d2 REFERENCES) as [n3 d3]. reflexivity.
Qed.

(** A marker that has no [x] in it cannot begin before the end of [p] and
    run into a text that starts with [x]. *)
Lemma startswith_app_absent (x : N) (m p s : pystr) :
  x ∉ m -> startswith (p ++ x :: s) m = startswith p m.
Proof.
  revert p. induction m as [|a m IH]; intros p Hx.
  - destruct p; reflexivity.
  - apply not_elem_of_cons in Hx as [Hne Hx].
    destruct p as [|c p]; simpl.
    + destruct (N.eqb_spec a x); [congruence | reflexivity].
    + rewrite IH by assumption. reflexivity.
Qed.

Lemma cut_app_marker (x a : N) (m pre s : pystr) :
  x ∉ m ->
  cut (a :: m) (pre ++ x :: s) = cut (a :: m) pre
  \/ (cut (a :: m) pre = pre
      /\ cut (a :: m) (pre ++ x :: s) = pre ++ cut (a :: m) (x :: s)).
Proof.
  intros Hx. induction pre as [|c pre IH].
  - right. rewrite cut_nil. split; reflexivity.
  - rewrite <- app_comm_cons.
    rewrite (cut_cons _ c (pre ++ x :: s)), (cut_cons _ c pre).
    assert (Hsw : startswith (c :: pre ++ x :: s) (a :: m)
                  = startswith (c :: pre) (a :: m)).
    { simpl. rewrite startswith_app_absent by assumption. reflexivity. }
    rewrite Hsw. destruct (startswith (c :: pre) (a :: m)).
    + left. reflexivity.
    + destruct IH as [IH|[IH1 IH2]].
      * left. rewrite IH. reflexivity.
      * right. rewrite IH1, IH2. split; reflexivity.
Qed.

Lemma NOTES_chars : NOTES = [78; 111; 116; 101; 115; 10]%N.
Proof. reflexivity. Qed.

Lemma EXTERNAL_LINKS_chars :
  EXTERNAL_LINKS
  = [69; 120; 116; 101; 114; 110; 97; 108; 32; 108; 105; 110; 107; 115; 10]%N.
Proof. reflexivity. Qed.

Lemma REFERENCES_chars :
  REFERENCES = [82; 101; 102; 101; 114; 101; 110; 99; 101; 115; 10]%N.
Proof. reflexivity. Qed.

Ltac cut_step := rewrite cut_cons; cbn [startswith N.eqb Pos.eqb andb].

Lemma cut_notes_references (post : pystr) :
  cut NOTES (REFERENCES ++ post) = REFERENCES ++ cut NOTES post.
Proof.
  rewrite REFERENCES_chars, NOTES_chars. cbn [app].
  do 11 cut_step. reflexivity.
Qed.

Lemma cut_links_references (post : pystr) :
  cut EXTERNAL_LINKS (REFERENCES ++ post)
  = REFERENCES ++ cut EXTERNAL_LINKS post.
Proof.
  rewrite REFERENCES_chars, EXTERNAL_LINKS_chars. cbn [app].
  do 11 cut_step. reflexivity.
Qed.

Lemma cut_references_references (post : pystr) :
  cut REFERENCES (REFERENCES ++ post) = [].
Proof.
  rewrite REFERENCES_chars. cbn [app].
  cut_step. reflexivity.
Qed.

(** One cut of a text with the references header in it: either the marker is
    found before the header, or the cut leaves the header in place. *)
Lemma cut_before_references (m pre post : pystr) :
  m = NOTES \/ m = EXTERNAL_LINKS ->
  cut m (pre ++ REFERENCES ++ post) = cut m pre
  \/ (cut m pre = pre
      /\ cut m (pre ++ REFERENCES ++ post) = pre ++ REFERENCES ++ cut m post).
Proof.
  intros Hm.
  assert (Hsplit : exists a m', m = a :: m' /\ (82%N ∉ m')).
  { destruct Hm as [-> | ->].
    - rewrite NOTES_chars. eexists _, _. split; [reflexivity|].
      rewrite !not_elem_of_cons. repeat split; try discriminate.
      apply not_elem_of_nil.
    - rewrite EXTERNAL_LINKS_chars. eexists _, _. split; [reflexivity|].
      rewrite !not_elem_of_cons. repeat split; try discriminate.
      apply not_elem_of_nil. }
  destruct Hsplit as (a & m' & Heq & Habs).
  assert (Hhead : cut m (REFERENCES ++ post) = REFERENCES ++ cut m post).
  { destruct Hm as [-> | ->];
      [apply cut_notes_references | apply cut_links_references]. }
  rewrite REFERENCES_chars in *. cbn [app] in *. subst m.
  destruct (cut_app_marker 82%N a m' pre
              ([101; 102; 101; 114; 101; 110; 99; 101; 115; 10]%N ++ post) Habs)
    as [H | [H1 H2]].
  - left. exact H.
  - right. split; [exact H1|]. cbn [app] in H2. rewrite H2, Hhead. reflexivity.
Qed.

Lemma cut_references_app (pre post : pystr) :
  cut REFERENCES (pre ++ REFERENCES ++ post) = cut REFERENCES pre.
Proof.
  pose proof (cut_references_references post) as Hhead.
  assert (Habs : 82%N ∉ [101; 102; 101; 114; 101; 110; 99; 101; 115; 10]%N).
  { rewrite !not_elem_of_cons. repeat split; try discriminate.
    apply not_elem_of_nil. }
  rewrite REFERENCES_chars in *. cbn [app] in *.
  destruct (cut_app_marker 82%N 82%N _ pre
              ([101; 102; 101; 114; 101; 110; 99; 101; 115; 10]%N ++ post) Habs)
    as [H | [H1 H2]].
  - exact H.
  - cbn [app] in H2. rewrite H2, Hhead, H1. apply app_nil_r.
Qed.

Lemma remove_sections_references (pre post : pystr) :
  remove_sections (pre ++ REFERENCES ++ post) = remove_sections pre.
Proof.
  rewrite !remove_sections_cuts.
  destruct (cut_before_references NOTES pre post ltac:(left; reflexivity))
    as [-> | [-> ->]]; [reflexivity|].
  destruct (cut_before_references EXTERNAL_LINKS pre (cut NOTES post)
              ltac:(right; reflexivity)) as [-> | [-> ->]]; [reflexivity|].
  apply cut_references_app.
Qed.

Lemma remove_sections_prefix (doc : pystr) : remove_sections doc `prefix_of` doc.
Proof.
  rewrite remove_sections_cuts.
  etransitivity; [apply cut_prefix|].
  etransitivity; [apply cut_prefix|]. apply cut_prefix.
Qed.

(** C4. A document with the header ["References\n"] in it is cleaned to what
    the text before that header is cleaned to, whatever follows the header
    and wherever the other two markers stand; what the cuts keep is a prefix
    of the text before the header. *)
Theorem clean_doc_drops_references `{Platform} (pre post : pystr) :
  clean_doc (pre ++ REFERENCES ++ post) = clean_doc pre
  /\ remove_sections (pre ++ REFERENCES ++ post) `prefix_of` pre.
Proof.
  split.
  - unfold clean_doc. rewrite remove_sections_references. reflexivity.
  - rewrite remove_sections_references. apply remove_sections_prefix.
Qed.

(** ** Tokens, numbers and citations *)

Lemma tokenize_words (doc : pystr) : Forall is_word (tokenize doc).
Proof.
  induction doc as [|c rest IH]; [constructor|].
  cbn [tokenize]. destruct (isspace c) eqn:Hc; [exact IH|].
  destruct rest as [|d rest'].
  - repeat constructor; [discriminate | exact Hc].
  - destruct (isspace d) eqn:Hd.
    + constructor; [|exact IH]. repeat constructor; [discriminate | exact Hc].
    + destruct (tokenize (d :: rest')) as [|tok toks] eqn:Ht.
      * repeat constructor; [discriminate | exact Hc].
      * inversion IH as [|? ? [Hne Hsp] Htoks]; subst.
        constructor; [|exact Htoks].
        split; [discriminate | constructor; assumption].
Qed.

(** A word followed by the end of the text or by white space is the next
    token. *)
Lemma tokenize_word_app (tok rest : pystr) :
  is_word tok ->
  match rest with [] => True | d :: _ => isspace d = true end ->
  tokenize (tok ++ rest) = tok :: tokenize rest.
Proof.
  intros [Hne Hsp] Hrest. induction tok as [|c tok IH]; [congruence|].
  inversion Hsp as [|? ? Hc Hsp']; subst.
  destruct tok as [|c2 tok'].
  - cbn [app tokenize]. rewrite Hc.
    destruct rest as [|d rest']; [reflexivity|]. rewrite Hrest. reflexivity.
  - specialize (IH ltac:(discriminate) Hsp').
    inversion Hsp' as [|? ? Hc2 _]; subst.
    cbn [app] in IH |- *. cbn [tokenize] in IH |- *.
    rewrite Hc, Hc2. rewrite Hc2 in IH. rewrite IH. reflexivity.
Qed.

Lemma tokenize_join (toks : list pystr) :
  Forall is_word toks -> tokenize (join (lit " ") toks) = toks.
Proof.
  induction 1 as [|tok toks Htok Htoks IH]; [reflexivity|].
  cbn [join]. destruct toks as [|tok2 toks'].
  - rewrite <- (app_nil_r tok) at 1.
    rewrite tokenize_word_app by (exact Htok || exact I). reflexivity.
  - rewrite tokenize_word_app by (exact Htok || reflexivity).
    change (lit " " ++ join (lit " ") (tok2 :: toks'))
      with (32%N :: join (lit " ") (tok2 :: toks')).
    cbn [tokenize]. change (isspace 32) with true. cbn iota.
    rewrite IH. reflexivity.
Qed.

Lemma filter_twice {A} (p : A -> bool) (l : list A) :
  List.filter p (List.filter p l) = List.filter p l.
Proof.
  induction l as [|x l IH]; [reflexivity|].
  cbn [List.filter]. destruct (p x) eqn:Hp; [|exact IH].
  cbn [List.filter]. rewrite Hp, IH. reflexivity.
Qed.

Lemma Forall_filter_bool {A} (P : A -> Prop) (p : A -> bool) (l : list A) :
  Forall P l -> Forall P (List.filter p l).
Proof.
  induction 1 as [|x l Hx Hl IH]; [constructor|].
  cbn [List.filter]. destruct (p x); [constructor|]; assumption.
Qed.

(** Step 3 on its own leaves its output as it is. *)
Lemma remove_numbers_idempotent `{Platform} (doc : pystr) :
  remove_numbers (remove_numbers doc) = remove_numbers doc.
Proof.
  unfold remove_numbers.
  rewrite tokenize_join by apply Forall_filter_bool, tokenize_words.
  rewrite filter_twice. reflexivity.
Qed.

(** Any table that is right on ASCII cleans ASCII text as the example
    platform does. *)
Lemma isnumeric_ascii `{Platform} (tok : pystr) :
  numeric_ascii_digits ->
  Forall (fun c => (c < 128)%N) tok ->
  isnumeric tok = isnumeric (H := ascii_utc_platform) tok.
Proof.
  intros Hlaw Htok. unfold isnumeric. destruct tok as [|c tok]; [reflexivity|].
  induction Htok as [|d l Hd Hl IH]; [reflexivity|].
  cbn [forallb]. rewrite IH, (Hlaw d Hd). reflexivity.
Qed.

Lemma tokenize_chars (P : N -> Prop) (doc : pystr) :
  Forall P doc -> Forall (Forall P) (tokenize doc).
Proof.
  induction 1 as [|c rest Hc Hrest IH]; [constructor|].
  cbn [tokenize]. destruct (isspace c); [exact IH|].
  destruct rest as [|d rest']; [repeat constructor; exact Hc|].
  destruct (isspace d); [constructor; [repeat constructor; exact Hc | exact IH]|].
  destruct (tokenize (d :: rest')) as [|tok toks];
    [repeat constructor; exact Hc|].
  inversion IH; subst. constructor; [constructor|]; assumption.
Qed.

Lemma remove_numbers_ascii `{Platform} (doc : pystr) :
  numeric_ascii_digits ->
  Forall (fun c => (c < 128)%N) doc ->
  remove_numbers doc = remove_numbers (H := ascii_utc_platform) doc.
Proof.
  intros Hlaw Hdoc. unfold remove_numbers. f_equal.
  pose proof (tokenize_chars _ doc Hdoc) as Htoks.
  induction Htoks as [|tok toks Htok _ IH]; [reflexivity|].
  cbn [List.filter]. rewrite IH, (isnumeric_ascii tok Hlaw Htok). reflexivity.
Qed.

Lemma ascii_lit_chars (l : pystr) :
  forallb (fun c => (c <? 128)%N) l = true -> Forall (fun c => (c < 128)%N) l.
Proof.
  intros Hl. apply Forall_forall. intros c Hc.
  rewrite forallb_forall in Hl. apply N.ltb_lt, Hl.
  apply list_elem_of_In, Hc.
Qed.

(** C5, as stated, fails: on ["a [1] b"] steps 3-4 give ["a  b"] with two
    spaces, and on that they give ["a b"], whatever the numeric table is
    outside ASCII. *)
Lemma numbers_then_citations_not_idempotent :
  ~ (exists P : Platform,
        @numeric_ascii_digits P
        /\ @numbers_then_citations P
             (@numbers_then_citations P (lit "a [1] b"))
           = @numbers_then_citations P (lit "a [1] b")).
Proof.
  intros (P & Hlaw & Heq). unfold numbers_then_citations in Heq.
  rewrite (remove_numbers_ascii (lit "a [1] b") Hlaw) in Heq
    by (apply ascii_lit_chars; reflexivity).
  change (remove_citations (remove_numbers (H := ascii_utc_platform)
                                           (lit "a [1] b")))
    with (lit "a  b") in Heq.
  rewrite (remove_numbers_ascii (lit "a  b") Hlaw) in Heq
    by (apply ascii_lit_chars; reflexivity).
  vm_compute in Heq. discriminate Heq.
Qed.

(** C5, amended. When step 4 finds no citation to delete in the output of
    step 3, steps 3-4 leave their own output as it is. *)
Theorem numbers_then_citations_idempotent `{Platform} (doc : pystr) :
  remove_citations (remove_numbers doc) = remove_numbers doc ->
  numbers_then_citations (numbers_then_citations doc)
  = numbers_then_citations doc.
Proof.
  intros Hnone. unfold numbers_then_citations.
  rewrite Hnone, remove_numbers_idempotent. exact Hnone.
Qed.

Lemma numbers_then_citations_idempotent_witness :
  @remove_citations (@remove_numbers ascii_utc_platform (lit "Hello 2020 world"))
  = @remove_numbers ascii_utc_platform (lit "Hello 2020 world")
  /\ @numbers_then_citations ascii_utc_platform
       (@numbers_then_citations ascii_utc_platform (lit "Hello 2020 world"))
     = @numbers_then_citations ascii_utc_platform (lit "Hello 2020 world").
Proof.
  split.
  - reflexivity.
  - apply (@numbers_then_citations_idempotent ascii_utc_platform
             (lit "Hello 2020 world")).
    reflexivity.
Defined.

(** ** Results of a list of calls *)

Lemma mapM_cons {A B} (f : A -> result B) (x : A) (l : list A) :
  mapM f (x :: l)
  = match f x with
    | Ok y => match mapM f l with
              | Ok ys => Ok (y :: ys)
              | Raise e => Raise e
              end
    | Raise e => Raise e
    end.
Proof. reflexivity. Qed.



(** ** Sorting *)

Lemma insort_perm {A} (key : A -> Z) (x : A) (l : list A) :
  insort key x l ≡ₚ x :: l.
Proof.
  induction l as [|y l IH]; [reflexivity|].
  cbn [insort]. destruct (key x <=? key y); [reflexivity|].
  rewrite IH. apply Permutation_swap.
Qed.

Lemma sorted_perm {A} (key : A -> Z) (l : list A) : sorted key l ≡ₚ l.
Proof.
  induction l as [|x l IH]; [reflexivity|].
  unfold sorted in *. cbn [foldr]. rewrite insort_perm, IH. reflexivity.
Qed.

Lemma insort_ascending {A} (key : A -> Z) (x : A) (l : list A) :
  Sorted Z.le (List.map key l) -> Sorted Z.le (List.map key (insort key x l)).
Proof.
  induction l as [|y l IH]; intros Hl.
  - repeat constructor.
  - cbn [insort]. destruct (key x <=? key y) eqn:Hxy.
    + cbn [List.map]. constructor; [exact Hl|].
      constructor. apply Z.leb_le, Hxy.
    + cbn [List.map] in *. apply Sorted_inv in Hl as [Hl Hhd].
      constructor; [apply IH, Hl|].
      destruct l as [|z l]; cbn [insort List.map].
      * constructor. apply Z.leb_gt in Hxy. lia.
      * destruct (key x <=? key z); cbn [List.map]; constructor.
        -- apply Z.leb_gt in Hxy. lia.
        -- inversion Hhd; assumption.
Qed.

Lemma sorted_ascending {A} (key : A -> Z) (l : list A) :
  Sorted Z.le (List.map key (sorted key l)).
Proof.
  induction l as [|x l IH]; [constructor|].
  unfold sorted in *. cbn [foldr]. apply insort_ascending, IH.
Qed.

(** Inserting [x] puts it in front of the elements that have its key and
    leaves the elements of any other key as they were. *)
Lemma filter_insort {A} (key : A -> Z) (t : Z) (x : A) (l : list A) :
  List.filter (fun y => key y =? t) (insort key x l)
  = List.filter (fun y => key y =? t) (x :: l).
Proof.
  induction l as [|y l IH]; [reflexivity|].
  cbn [insort]. destruct (key x <=? key y) eqn:Hxy; [reflexivity|].
  cbn [List.filter] in *. rewrite IH.
  destruct (key x =? t) eqn:Hx; [|reflexivity].
  destruct (key y =? t) eqn:Hy; [|reflexivity].
  apply Z.leb_gt in Hxy. apply Z.eqb_eq in Hx, Hy. lia.
Qed.

Lemma sorted_stable {A} (key : A -> Z) (t : Z) (l : list A) :
  List.filter (fun y => key y =? t) (sorted key l)
  = List.filter (fun y => key y =? t) l.
Proof.
  induction l as [|x l IH]; [reflexivity|].
  unfold sorted in *. cbn [foldr]. rewrite filter_insort.
  cbn [List.filter]. rewrite IH. reflexivity.
Qed.

(** ** The worker pool *)

Section pool.
Context {A B : Type} (fn : A -> result B) (args : list A).

Local Abbreviation fill := (fill_future fn args).

Lemma fill_length futures i : length (fill futures i) = length futures.
Proof.
  unfold fill_future. destruct (args !! i); [apply length_insert | reflexivity].
Qed.

Lemma run_pool_lookup (order : list nat) futures (i : nat) :
  length futures = length args ->
  foldl fill futures order !! i
  = if decide (i ∈ order) then Some <$> (fn <$> args !! i) else futures !! i.
Proof.
  revert futures. induction order as [|j order IH]; intros futures Hlen.
  - cbn [foldl]. destruct (decide (i ∈ [])) as [Hin|]; [|reflexivity].
    apply elem_of_nil in Hin. contradiction.
  - cbn [foldl]. rewrite IH by (rewrite fill_length; exact Hlen).
    destruct (decide (i ∈ order)) as [Hin|Hnin].
    + rewrite decide_True by (right; exact Hin). reflexivity.
    + destruct (decide (i = j)) as [->|Hne].
      * rewrite decide_True by (left; reflexivity).
        unfold fill. destruct (args !! j) as [a|] eqn:Ha.
        -- apply list_lookup_insert_eq. rewrite Hlen.
           apply lookup_lt_Some in Ha. exact Ha.
        -- apply lookup_ge_None. rewrite Hlen.
           apply lookup_ge_None in Ha. exact Ha.
      * rewrite decide_False
          by (intros [->|?]%elem_of_cons; [congruence | contradiction]).
        unfold fill. destruct (args !! j); [|reflexivity].
        apply list_lookup_insert_ne. congruence.
Qed.

(** Once every task has finished, each future holds the result of its own
    task, in whatever order the tasks finished. *)
Lemma run_pool_filled (order : list nat) :
  order ≡ₚ seq 0 (length args) ->
  run_pool fn args order = (fun a => Some (fn a)) <$> args.
Proof.
  intros Hperm. apply list_eq. intros i. unfold run_pool.
  rewrite run_pool_lookup by apply length_replicate.
  rewrite list_lookup_fmap.
  destruct (decide (i ∈ order)) as [Hin|Hnin].
  - destruct (args !! i); reflexivity.
  - assert (Hge : (length args <= i)%nat).
    { destruct (Nat.le_gt_cases (length args) i) as [|Hlt]; [assumption|].
      exfalso. apply Hnin. rewrite Hperm. apply elem_of_seq. lia. }
    rewrite (proj2 (lookup_ge_None args i) Hge).
    apply lookup_ge_None. rewrite length_replicate. exact Hge.
Qed.

Lemma gather_filled (l : list A) :
  gather ((fun a => Some (fn a)) <$> l) = Some (mapM fn l).
Proof.
  induction l as [|a l IH]; [reflexivity|].
  cbn [fmap list_fmap gather]. rewrite mapM_cons.
  destruct (fn a) as [y|e]; [|reflexivity].
  rewrite IH. destruct (mapM fn l); reflexivity.
Qed.

(** [executor.map] returns what a sequential map returns, for every
    assignment of finishing times. *)
Lemma executor_map_mapM (finish : nat -> Z) :
  executor_map finish fn args = Some (mapM fn args).
Proof.
  unfold executor_map. rewrite run_pool_filled; [apply gather_filled|].
  apply sorted_perm.
Qed.
End pool.

(** C3. Whatever the times at which the workers finish, the pool gives for a
    chunk the results of [clean_revision] on the revisions of the chunk in
    ascending order of timestamp, one result for each revision. *)
Theorem pool_output_is_sorted_map `{Platform} (finish : nat -> Z)
    (chunk : list revision_entry) :
  executor_map finish clean_revision (process_chunk chunk)
  = Some (mapM clean_revision (process_chunk chunk))
  /\ process_chunk chunk
     = List.map (fun entry => (entry_timestamp entry, entry_content entry))
                (sorted entry_timestamp chunk)
  /\ Sorted Z.le (List.map fst (process_chunk chunk))
  /\ sorted entry_timestamp chunk ≡ₚ chunk
  /\ (forall clean_results,
        mapM clean_revision (process_chunk chunk) = Ok clean_results ->
        List.map fst clean_results = List.map fst (process_chunk chunk)).
Proof.
  split; [apply executor_map_mapM|].
  split; [reflexivity|].
  split.
  { unfold process_chunk. rewrite List.map_map. cbn [fst].
    apply sorted_ascending. }
  split; [apply sorted_perm|].
  generalize (process_chunk chunk) as l.
  induction l as [|[t c] l IH]; intros res Hres.
  - injection Hres as <-. reflexivity.
  - cbn [mapM] in Hres. unfold mbind at 1, result_bind in Hres.
    unfold clean_revision at 1 in Hres.
    unfold mbind at 1, result_bind in Hres.
    destruct (strip_code c) as [text|e]; [|discriminate Hres].
    cbn in Hres.
    destruct (mapM clean_revision l) as [ys|e]; [|discriminate Hres].
    injection Hres as <-. cbn [List.map fst]. rewrite (IH ys eq_refl).
    reflexivity.
Qed.

(** C9. In the list handed to the pool the revisions of any one timestamp
    stand in the order they had in the chunk read from the file. *)
Theorem process_chunk_stable (chunk : list revision_entry) (t : Z) :
  List.filter (fun tc => fst tc =? t) (process_chunk chunk)
  = List.filter (fun tc => fst tc =? t)
      (List.map (fun entry => (entry_timestamp entry, entry_content entry))
                chunk).
Proof.
  unfold process_chunk.
  assert (Hmap : forall l : list revision_entry,
             List.filter (fun tc : Z * pystr => fst tc =? t)
               (List.map (fun entry => (entry_timestamp entry,
                                        entry_content entry)) l)
             = List.map (fun entry => (entry_timestamp entry,
                                       entry_content entry))
                 (List.filter (fun entry => entry_timestamp entry =? t) l)).
  { induction l as [|e l IH]; [reflexivity|].
    cbn [List.map List.filter fst]. rewrite IH.
    destruct (entry_timestamp e =? t); reflexivity. }
  rewrite !Hmap, sorted_stable. reflexivity.
Qed.

(** ** Pass 1 *)

Lemma records_app (f g : file) : records (f ++ g) = records f ++ records g.
Proof.
  induction f as [|[s|e] f IH]; cbn [app records]; [reflexivity|exact IH|].
  rewrite IH. reflexivity.
Qed.








(** The file of a harvest whose first page has lost all its revisions:
    the separator written after that page follows the opening bracket. *)
Lemma comma_after_open_not_array (e : revision_entry) (f : file) :
  tokens f = [TOpen; TComma; TValue e; TClose] -> ~ well_formed_array f.
Proof.
  intros Htok [items Hitems]. rewrite Htok in Hitems.
  destruct items as [|e' items]; cbn in Hitems; discriminate Hitems.
Qed.

(** C7 at its failing input: the first page keeps no revision and has a
    continuation token, the second page is the last.  The run ends normally,
    the file holds a comma right after the opening bracket, it is not an array
    of records, and pass 2 cannot read it. *)
Theorem harvest_with_emptied_page_is_malformed `{Platform}
    (finish : nat -> nat -> Z) :
  exists e,
    get_all_revision_ids [page_all_dropped; page_last]
    = ([Text JSON_HEAD; Text SEPARATOR; Dump e; Text JSON_TAIL], 1%nat, Ok tt)
    /\ tokens [Text JSON_HEAD; Text SEPARATOR; Dump e; Text JSON_TAIL]
       = [TOpen; TComma; TValue e; TClose]
    /\ ~ well_formed_array
           [Text JSON_HEAD; Text SEPARATOR; Dump e; Text JSON_TAIL]
    /\ clean_revisions_in_batches finish
         [Text JSON_HEAD; Text SEPARATOR; Dump e; Text JSON_TAIL]
       = Some (Raise JSONError).
Proof.
  exists {| entry_timestamp :=
              unix_timestamp {| year := 2020; month := 1; day := 2;
                                hour := 0; minute := 0; second := 0 |};
            entry_content := lit "text" |}.
  split; [reflexivity|]. split; [reflexivity|]. split.
  - eapply comma_after_open_not_array. reflexivity.
  - reflexivity.
Qed.

(** ** Pass 2: the reader *)

Lemma ijson_next_shorter (pos : position) (input : list token)
    (e : revision_entry) (it' : iterator) :
  ijson_next pos input = Yield e it' ->
  (length (it_input it') < length input)%nat.
Proof.
  revert pos. induction input as [|t rest IH]; intros pos Hn.
  - destruct pos; discriminate Hn.
  - cbn [ijson_next] in Hn.
    destruct pos, t; try discriminate Hn;
      try (apply IH in Hn; cbn [length]; lia);
      inversion Hn; subst; cbn [it_input length]; lia.
Qed.

Lemma islice_shorter (n : nat) (it it' : iterator)
    (chunk : list revision_entry) :
  islice n it = (Ok chunk, it') ->
  (length (it_input it') <= length (it_input it))%nat
  /\ (chunk <> [] -> (length (it_input it') < length (it_input it))%nat).
Proof.
  revert it it' chunk. induction n as [|k IH]; intros it it' chunk Hs.
  - cbn [islice] in Hs. inversion Hs; subst. split; [lia | congruence].
  - cbn [islice] in Hs.
    destruct (ijson_next (it_position it) (it_input it)) as [e it1| |err] eqn:Hn.
    + apply ijson_next_shorter in Hn.
      destruct (islice k it1) as [[es|err] it2] eqn:Hk; [|discriminate Hs].
      inversion Hs; subst. destruct (IH _ _ _ Hk) as [Hle _]. split; lia.
    + inversion Hs; subst. cbn [it_input length]. split; [lia | congruence].
    + discriminate Hs.
Qed.

Lemma process_chunk_length (chunk : list revision_entry) :
  length (process_chunk chunk) = length chunk.
Proof.
  unfold process_chunk. rewrite length_map.
  apply Permutation_length, sorted_perm.
Qed.


Lemma ijson_next_unclosed (pos : position) (input : list token) :
  inside_array pos -> TClose ∉ input ->
  match ijson_next pos input with
  | Yield e it' => inside_array (it_position it') /\ TClose ∉ it_input it'
  | StopIteration => False
  | Throw _ => True
  end.
Proof.
  revert pos. induction input as [|t rest IH]; intros pos Hpos Hclose.
  - destruct Hpos as [->|[->| ->]]; exact I.
  - apply not_elem_of_cons in Hclose as [Hne Hclose].
    destruct Hpos as [->|[->| ->]]; destruct t; cbn [ijson_next];
      try exact I; try congruence;
      try (split; [right; left; reflexivity | exact Hclose]).
    apply IH; [right; right; reflexivity | exact Hclose].
Qed.

Lemma islice_unclosed (n : nat) (it : iterator) :
  inside_array (it_position it) -> TClose ∉ it_input it ->
  match islice n it with
  | (Ok chunk, it') =>
      length chunk = n /\ inside_array (it_position it')
      /\ TClose ∉ it_input it'
  | (Raise _, _) => True
  end.
Proof.
  revert it. induction n as [|k IH]; intros it Hpos Hclose.
  - cbn [islice]. repeat split; assumption.
  - cbn [islice].
    pose proof (ijson_next_unclosed _ _ Hpos Hclose) as Hn.
    destruct (ijson_next (it_position it) (it_input it)) as [e it1| |err];
      [|contradiction|exact I].
    destruct Hn as [Hpos1 Hclose1]. specialize (IH it1 Hpos1 Hclose1).
    destruct (islice k it1) as [[es|err] it2]; [|exact I].
    destruct IH as (Hlen & Hpos2 & Hclose2).
    cbn [length]. repeat split; [congruence | assumption | assumption].
Qed.

(** Without a closing bracket ahead the loop cannot end well. *)
Lemma batches_loop_unclosed `{Platform} (finish : nat -> nat -> Z) (fuel : nat)
    (it : iterator) (acc : list (Z * pystr)) (handed i : nat) :
  (length (it_input it) < fuel)%nat ->
  inside_array (it_position it) -> TClose ∉ it_input it ->
  exists run e,
    batches_loop fuel finish it acc handed i = Some run
    /\ outcome run = Raise e
    /\ (handed <= submitted run)%nat.
Proof.
  revert it acc handed i.
  induction fuel as [|fuel IH]; intros it acc handed i Hfuel Hpos Hclose; [lia|].
  cbn [batches_loop].
  pose proof (islice_unclosed chunk_size it Hpos Hclose) as Hu.
  destruct (islice chunk_size it) as [[chunk|err] it'] eqn:Hs.
  - destruct Hu as (Hlen & Hpos' & Hclose').
    destruct chunk as [|e es]; [discriminate Hlen|].
    rewrite executor_map_mapM.
    destruct (mapM clean_revision (process_chunk (e :: es))) as [res|err].
    + destruct (islice_shorter _ _ _ _ Hs) as [_ Hlt].
      specialize (Hlt ltac:(discriminate)).
      destruct (IH it' (acc ++ res)
                  (handed + length (process_chunk (e :: es)))%nat (S i)
                  ltac:(lia) Hpos' Hclose') as (run & err & Hrun & Hout & Hle).
      exists run, err. repeat split; [exact Hrun | exact Hout | lia].
    + eexists _, err. repeat split. cbn [submitted]. lia.
  - eexists _, err. repeat split. cbn [submitted]. lia.
Qed.

Lemma batches_loop_start `{Platform} (finish : nat -> nat -> Z) (fuel : nat)
    (toks : list token) (acc : list (Z * pystr)) (handed i : nat) :
  batches_loop fuel finish {| it_position := AtStart; it_input := TOpen :: toks |}
               acc handed i
  = batches_loop fuel finish {| it_position := AfterOpen; it_input := toks |}
                 acc handed i.
Proof. destruct fuel; reflexivity. Qed.

Lemma tokens_app (f g : file) : tokens (f ++ g) = tokens f ++ tokens g.
Proof.
  induction f as [|[s|e] f IH]; cbn [app tokens]; [reflexivity| |].
  - rewrite IH. apply app_assoc.
  - rewrite IH. reflexivity.
Qed.

Lemma tokens_head (body : file) :
  tokens (Text JSON_HEAD :: body) = TOpen :: tokens body.
Proof. reflexivity. Qed.

(** A file that has the head but no closing bracket makes pass 2 raise. *)
Lemma unclosed_file_raises `{Platform} (finish : nat -> nat -> Z) (body : file) :
  TClose ∉ tokens body ->
  exists run e,
    run_batches finish (Text JSON_HEAD :: body) = Some run
    /\ outcome run = Raise e.
Proof.
  intros Hclose. unfold run_batches. rewrite tokens_head, batches_loop_start.
  destruct (batches_loop_unclosed finish (S (length (TOpen :: tokens body)))
              {| it_position := AfterOpen; it_input := tokens body |}
              [] 0%nat 1%nat)
    as (run & e & Hrun & Hout & _).
  - cbn [it_input length]. lia.
  - left. reflexivity.
  - exact Hclose.
  - exists run, e. split; assumption.
Qed.

(** ** Pass 2: a collection cut short *)

Lemma tokens_dumps (es : list revision_entry) : tokens (dumps es) = array_body es.
Proof.
  induction es as [|e es IH]; [reflexivity|].
  cbn [dumps array_body tokens]. destruct es as [|e2 es']; [reflexivity|].
  cbn [tokens]. rewrite IH. reflexivity.
Qed.

Lemma tokens_truncated (es : list revision_entry) (trailing : bool) :
  tokens (truncated_collection es trailing)
  = TOpen :: array_body es ++ (if trailing then [TComma] else []).
Proof.
  unfold truncated_collection. rewrite tokens_head, tokens_app, tokens_dumps.
  destruct trailing; reflexivity.
Qed.

Lemma array_body_unclosed (es : list revision_entry) : TClose ∉ array_body es.
Proof.
  induction es as [|e es IH]; [apply not_elem_of_nil|].
  cbn [array_body]. destruct es as [|e2 es'].
  - rewrite not_elem_of_cons. split; [discriminate | apply not_elem_of_nil].
  - rewrite !not_elem_of_cons. repeat split; try discriminate. exact IH.
Qed.

Lemma array_body_cons (e : revision_entry) (es : list revision_entry)
    (tl : list token) :
  array_body (e :: es) ++ tl = TValue e :: rest_after es tl.
Proof. destruct es; reflexivity. Qed.

Lemma ijson_next_value (e : revision_entry) (es : list revision_entry)
    (tl : list token) :
  ijson_next AfterValue (rest_after (e :: es) tl)
  = Yield e {| it_position := AfterValue; it_input := rest_after es tl |}.
Proof.
  unfold rest_after at 1. rewrite array_body_cons. reflexivity.
Qed.

(** As long as records are left, [islice] takes what it was asked for. *)
Lemma islice_full (n : nat) (es : list revision_entry) (tl : list token) :
  (n <= length es)%nat ->
  islice n {| it_position := AfterValue; it_input := rest_after es tl |}
  = (Ok (take n es),
     {| it_position := AfterValue; it_input := rest_after (drop n es) tl |}).
Proof.
  revert es. induction n as [|k IH]; intros es Hn.
  - rewrite take_0, drop_0. reflexivity.
  - destruct es as [|e es]; [cbn [length] in Hn; lia|].
    cbn [islice it_position it_input]. rewrite ijson_next_value.
    rewrite IH by (cbn [length] in Hn; lia). reflexivity.
Qed.

(** When the records run out before the chunk is full, the end of the input
    is met and [islice] raises. *)
Lemma islice_short (n : nat) (es : list revision_entry) (tl : list token) :
  (length es < n)%nat -> tl = [] \/ tl = [TComma] ->
  exists e it',
    islice n {| it_position := AfterValue; it_input := rest_after es tl |}
    = (Raise e, it').
Proof.
  intros Hn Htl. revert n Hn. induction es as [|e0 es IH]; intros n Hn.
  - destruct n as [|k]; [lia|].
    destruct Htl as [-> | ->]; eexists _, _; reflexivity.
  - destruct n as [|k]; [lia|].
    cbn [islice it_position it_input]. rewrite ijson_next_value.
    destruct (IH k ltac:(cbn [length] in Hn; lia)) as (e & it' & Hk).
    rewrite Hk. eexists _, _. reflexivity.
Qed.

(** The first chunk read from a collection cut short. *)
Lemma islice_first_short (n : nat) (es : list revision_entry)
    (tl : list token) :
  (length es < S n)%nat -> tl = [] \/ tl = [TComma] ->
  exists e it',
    islice (S n) {| it_position := AfterOpen; it_input := array_body es ++ tl |}
    = (Raise e, it').
Proof.
  intros Hn Htl. destruct es as [|e0 es].
  - destruct Htl as [-> | ->]; eexists _, _; reflexivity.
  - rewrite array_body_cons. cbn [islice it_position it_input ijson_next].
    destruct (islice_short n es tl ltac:(cbn [length] in Hn; lia) Htl)
      as (e & it' & Hk).
    rewrite Hk. eexists _, _. reflexivity.
Qed.

Lemma islice_first_full (n : nat) (es : list revision_entry)
    (tl : list token) :
  (S n <= length es)%nat ->
  islice (S n) {| it_position := AfterOpen; it_input := array_body es ++ tl |}
  = (Ok (take (S n) es),
     {| it_position := AfterValue;
        it_input := rest_after (drop (S n) es) tl |}).
Proof.
  intros Hn. destruct es as [|e0 es]; [cbn [length] in Hn; lia|].
  rewrite array_body_cons. cbn [islice it_position it_input ijson_next].
  rewrite islice_full by (cbn [length] in Hn; lia). reflexivity.
Qed.

(** When the failure of the reader comes: with fewer than [chunk_size]
    records in the file nothing has gone to the pool; with [chunk_size] or
    more, the first chunk at least has. *)
Lemma truncated_timing `{Platform} (finish : nat -> nat -> Z)
    (es : list revision_entry) (trailing : bool) :
  exists run e,
    run_batches finish (truncated_collection es trailing) = Some run
    /\ outcome run = Raise e
    /\ ((length es < chunk_size)%nat -> submitted run = 0%nat)
    /\ ((chunk_size <= length es)%nat -> (chunk_size <= submitted run)%nat).
Proof.
  unfold run_batches. rewrite tokens_truncated, batches_loop_start.
  set (tl := if trailing then [TComma] else []).
  assert (Htl : tl = [] \/ tl = [TComma])
    by (subst tl; destruct trailing; [right | left]; reflexivity).
  assert (Hclose : TClose ∉ array_body es ++ tl).
  { rewrite elem_of_app. intros [Hin|Hin].
    - exact (array_body_unclosed es Hin).
    - destruct Htl as [-> | ->].
      + exact (not_elem_of_nil _ Hin).
      + apply list_elem_of_singleton in Hin. discriminate Hin. }
  destruct (Nat.lt_ge_cases (length es) chunk_size) as [Hlt|Hge].
  - destruct (islice_first_short 99 es tl Hlt Htl) as (e & it' & Hs).
    cbn [batches_loop]. change chunk_size with 100%nat. rewrite Hs.
    eexists _, e. split; [reflexivity|]. split; [reflexivity|].
    split; [reflexivity|]. intros Hge. unfold chunk_size in *. lia.
  - pose proof (islice_first_full 99 es tl Hge) as Hs.
    cbn [batches_loop]. change chunk_size with 100%nat. rewrite Hs.
    destruct (take 100 es) as [|e0 chunk] eqn:Htake.
    { apply (f_equal length) in Htake. rewrite length_take in Htake.
      unfold chunk_size in Hge. cbn [length] in Htake. lia. }
    assert (Hlen : length (process_chunk (e0 :: chunk)) = 100%nat).
    { rewrite process_chunk_length, <- Htake, length_take.
      unfold chunk_size in Hge. lia. }
    rewrite executor_map_mapM.
    destruct (mapM clean_revision (process_chunk (e0 :: chunk))) as [res|err].
    + destruct (batches_loop_unclosed finish
                  (length (TOpen :: array_body es ++ tl))
                  {| it_position := AfterValue;
                     it_input := rest_after (drop 100 es) tl |}
                  ([] ++ res) (0 + length (process_chunk (e0 :: chunk)))%nat 2%nat)
        as (run & e & Hrun & Hout & Hle).
      * destruct (islice_shorter _ _ _ _ Hs) as [Hle _].
        cbn [it_input length] in Hle |- *. lia.
      * right. left. reflexivity.
      * pose proof (islice_unclosed 100
                      {| it_position := AfterOpen;
                         it_input := array_body es ++ tl |}
                      ltac:(left; reflexivity) Hclose) as Hu.
        rewrite Hs in Hu. apply Hu.
      * exists run, e. split; [exact Hrun|]. split; [exact Hout|].
        unfold chunk_size in *. split; intros; lia.
    + eexists _, err. split; [reflexivity|]. split; [reflexivity|].
      cbn [submitted]. unfold chunk_size in *. split; intros; lia.
Qed.

(** C2, as stated, fails: a file with a hundred records and no closing bracket
    lacks its terminal marker, and on no platform and under no scheduling is
    the run over before revisions have gone to the workers. *)
Lemma unclosed_collection_cleaned_before_failure :
  (TClose ∉ tokens hundred_records)
  /\ ~ (exists (P : Platform) (finish : nat -> nat -> Z) (run : pass2),
           @run_batches P finish hundred_records = Some run
           /\ submitted run = 0%nat).
Proof.
  split.
  - unfold hundred_records. rewrite tokens_truncated.
    rewrite !not_elem_of_cons. split; [discriminate|].
    rewrite app_nil_r. apply array_body_unclosed.
  - intros (P & finish & run & Hrun & Hzero).
    destruct (@truncated_timing P finish
                (replicate 100 {| entry_timestamp := 1577836800;
                                  entry_content := lit "text" |}) false)
      as (run' & e & Hrun' & _ & _ & Hge).
    unfold hundred_records in Hrun. rewrite Hrun in Hrun'.
    injection Hrun' as <-.
    specialize (Hge ltac:(rewrite length_replicate; unfold chunk_size; lia)).
    unfold chunk_size in Hge. lia.
Qed.

(** C2, amended. A collection file without its closing bracket makes
    [clean_revisions_in_batches] raise: no list is returned.  The exception
    comes when the reader meets the end of the input: for a file cut short
    after fewer than [chunk_size] records that is before any revision has gone
    to the workers, for a file with [chunk_size] records or more it is after
    the first chunk at least has gone to them. *)
Theorem unclosed_collection_fails `{Platform} (finish : nat -> nat -> Z) :
  (forall body : file,
      TClose ∉ tokens body ->
      exists e,
        clean_revisions_in_batches finish (Text JSON_HEAD :: body)
        = Some (Raise e))
  /\ (forall (es : list revision_entry) (trailing : bool),
        exists run e,
          run_batches finish (truncated_collection es trailing) = Some run
          /\ clean_revisions_in_batches finish (truncated_collection es trailing)
             = Some (Raise e)
          /\ ((length es < chunk_size)%nat -> submitted run = 0%nat)
          /\ ((chunk_size <= length es)%nat -> (chunk_size <= submitted run)%nat)).
Proof.
  split.
  - intros body Hclose.
    destruct (unclosed_file_raises finish body Hclose) as (run & e & Hrun & Hout).
    exists e. unfold clean_revisions_in_batches. rewrite Hrun.
    cbn [mbind option_bind]. rewrite Hout. reflexivity.
  - intros es trailing.
    destruct (truncated_timing finish es trailing)
      as (run & e & Hrun & Hout & Hlt & Hge).
    exists run, e. split; [exact Hrun|]. split; [|split; assumption].
    unfold clean_revisions_in_batches. rewrite Hrun.
    cbn [mbind option_bind]. rewrite Hout. reflexivity.
Qed.

(** ** The driver *)




(** ** The latest-revision lookup *)

Lemma lookup_original_title_spec (inner_dict : page_info)
    (entries : list normalized_entry) (article_texts : gmap pystr pystr)
    (t text : pystr) :
  lookup_original_title inner_dict entries article_texts !! t = Some text ->
  article_texts !! t = Some text
  \/ exists entry,
       entry ∈ entries /\ norm_from entry = t
       /\ contains (norm_to entry) (title inner_dict) = true
       /\ extract inner_dict = Some text.
Proof.
  induction entries as [|entry entries IH]; intros Hlook; [left; exact Hlook|].
  cbn [lookup_original_title] in Hlook.
  destruct (contains (norm_to entry) (title inner_dict)) eqn:Hsub.
  - destruct (extract inner_dict) as [body|] eqn:Hext; [|left; exact Hlook].
    destruct (decide (norm_from entry = t)) as [Heq|Hne].
    + rewrite Heq, lookup_insert_eq in Hlook. injection Hlook as ->.
      right. exists entry. repeat split; [left | exact Heq | exact Hsub].
    + rewrite lookup_insert_ne in Hlook by exact Hne. left. exact Hlook.
  - destruct (IH Hlook) as [Hacc | (entry' & Hin & Hrest)]; [left; exact Hacc|].
    right. exists entry'. split; [right; exact Hin | exact Hrest].
Qed.

(** C10. A title is a key of the returned dict only if the response has a
    ["normalized"] list with an entry that comes from that title and whose
    target has the title of a page with an extract as a substring (the test
    the code makes); a title that no entry comes from, or any title when the
    list is missing, is not in the dict, whether or not a page of the response
    carries its extract. *)
Theorem latest_revisions_only_normalized (titles : list pystr)
    (response_json : query_response) (t : pystr) :
  (forall text,
      get_latest_revisions titles response_json !! t = Some text ->
      exists entries entry page_id inner_dict,
        normalized response_json = Some entries
        /\ entry ∈ entries
        /\ (page_id, inner_dict) ∈ pages response_json
        /\ norm_from entry = t
        /\ contains (norm_to entry) (title inner_dict) = true
        /\ extract inner_dict = Some text)
  /\ ((forall entries,
          normalized response_json = Some entries ->
          t ∉ List.map norm_from entries) ->
      get_latest_revisions titles response_json !! t = None).
Proof.
  assert (Hkeys : forall text,
             get_latest_revisions titles response_json !! t = Some text ->
             exists entries entry page_id inner_dict,
               normalized response_json = Some entries
               /\ entry ∈ entries
               /\ (page_id, inner_dict) ∈ pages response_json
               /\ norm_from entry = t
               /\ contains (norm_to entry) (title inner_dict) = true
               /\ extract inner_dict = Some text).
  { unfold get_latest_revisions.
    assert (Hgen : forall (pgs : list (pystr * page_info))
                          (acc : gmap pystr pystr) text,
               (forall p, p ∈ pgs -> p ∈ pages response_json) ->
               foldl (fun article_texts '(page_id, inner_dict) =>
                        match normalized response_json with
                        | Some entries =>
                            lookup_original_title inner_dict entries
                                                  article_texts
                        | None => article_texts
                        end) acc pgs !! t = Some text ->
               acc !! t = Some text
               \/ exists entries entry page_id inner_dict,
                    normalized response_json = Some entries
                    /\ entry ∈ entries
                    /\ (page_id, inner_dict) ∈ pages response_json
                    /\ norm_from entry = t
                    /\ contains (norm_to entry) (title inner_dict) = true
                    /\ extract inner_dict = Some text).
    { induction pgs as [|[page_id inner_dict] pgs IH]; intros acc text Hsub Hlook.
      - left. exact Hlook.
      - cbn [foldl] in Hlook.
        assert (Hsub' : forall p, p ∈ pgs -> p ∈ pages response_json)
          by (intros p Hp; apply Hsub; right; exact Hp).
        destruct (IH _ _ Hsub' Hlook) as [Hacc | Hfound]; [|right; exact Hfound].
        destruct (normalized response_json) as [entries|] eqn:Hnorm;
          [|left; exact Hacc].
        destruct (lookup_original_title_spec _ _ _ _ _ Hacc)
          as [Hacc' | (entry & Hin & Hfrom & Hcont & Hext)];
          [left; exact Hacc'|].
        right. exists entries, entry, page_id, inner_dict.
        repeat split; try assumption. apply Hsub. left. }
    intros text Hlook.
    destruct (Hgen (pages response_json) ∅ text (fun p Hp => Hp) Hlook)
      as [Hempty | Hfound]; [|exact Hfound].
    rewrite lookup_empty in Hempty. discriminate Hempty. }
  split; [exact Hkeys|].
  intros Habsent.
  destruct (get_latest_revisions titles response_json !! t) as [text|] eqn:Hlook;
    [|reflexivity].
  destruct (Hkeys text eq_refl)
    as (entries & entry & _ & _ & Hnorm & Hin & _ & Hfrom & _).
  exfalso. apply (Habsent entries Hnorm).
  rewrite <- Hfrom. apply list_elem_of_In, in_map, list_elem_of_In, Hin.
Qed.

(** ** The end-to-end scenario *)

(** On a host whose zone keeps one offset, a naive time is moved by that
    offset. *)
Lemma mktime_fixed_offset `{Platform} (off : Z) (dt : datetime) :
  (forall u, utcoffset u = off) -> mktime dt = seconds_since_epoch dt - off.
Proof.
  intros Hoff. unfold mktime. rewrite !Hoff.
  replace (seconds_since_epoch dt - (seconds_since_epoch dt + off
                                     - seconds_since_epoch dt) + off)
    with (seconds_since_epoch dt) by lia.
  rewrite Z.eqb_refl.
  replace (seconds_since_epoch dt
           - (seconds_since_epoch dt + off - seconds_since_epoch dt)
           - 24 * 3600 + off
           - (seconds_since_epoch dt
              - (seconds_since_epoch dt + off - seconds_since_epoch dt)
              - 24 * 3600))
    with (seconds_since_epoch dt + off - seconds_since_epoch dt) by lia.
  rewrite Z.eqb_refl. lia.
Qed.

Lemma clean_doc_ascii `{Platform} (doc : pystr) :
  numeric_ascii_digits ->
  Forall (fun c => (c < 128)%N) doc ->
  clean_doc doc = clean_doc (H := ascii_utc_platform) doc.
Proof.
  intros Hlaw Hdoc. unfold clean_doc.
  rewrite (remove_numbers_ascii (remove_sections doc) Hlaw); [reflexivity|].
  destruct (remove_sections_prefix doc) as [k Hk].
  rewrite Hk in Hdoc. apply Forall_app in Hdoc as [Hpre _]. exact Hpre.
Qed.

(** Pass 2 on a collection of one record. *)
Lemma run_batches_single `{Platform} (finish : nat -> nat -> Z)
    (e : revision_entry) (cleaned : Z * pystr) :
  clean_revision (entry_timestamp e, entry_content e) = Ok cleaned ->
  clean_revisions_in_batches finish [Text JSON_HEAD; Dump e; Text JSON_TAIL]
  = Some (Ok [cleaned]).
Proof.
  intros Hclean. unfold clean_revisions_in_batches, run_batches.
  change (tokens [Text JSON_HEAD; Dump e; Text JSON_TAIL])
    with [TOpen; TValue e; TClose].
  cbn [length batches_loop]. change chunk_size with 100%nat.
  cbn [islice it_position it_input ijson_next].
  change (process_chunk [e]) with [(entry_timestamp e, entry_content e)].
  rewrite executor_map_mapM, mapM_cons, Hclean. reflexivity.
Qed.

(** C6 on the code.  With a numeric table that is right on ASCII and a markup
    parser that leaves the markup-free text of the scenario as it is, a run on
    the one revision of the scenario, on a host whose zone is [off] seconds
    east of UTC, writes the timestamp [1577836800 - off] to both files, the
    content unchanged to the collection, and the cleaned text ["Hello  world"]
    with two spaces to the final file, where the record is a two-element array
    and not an object with keys. *)
Theorem scenario_follows_host_zone `{Platform} (finish : nat -> nat -> Z)
    (off : Z) :
  numeric_ascii_digits ->
  strip_code (lit "Hello [1] 2020 world") = Ok (lit "Hello [1] 2020 world") ->
  (forall u, utcoffset u = off) ->
  main [scenario_page] finish empty_disk
  = Some ({| collection_file :=
               Some [Text JSON_HEAD;
                     Dump {| entry_timestamp := 1577836800 - off;
                             entry_content := lit "Hello [1] 2020 world" |};
                     Text JSON_TAIL];
             clean_file :=
               Some (JArr [JArr [JInt (1577836800 - off);
                                 JStr (lit "Hello  world")]]) |},
          Ok tt).
Proof.
  intros Hlaw Hstrip Hoff. unfold main.
  assert (Hharvest :
            get_all_revision_ids [scenario_page]
            = ([Text JSON_HEAD;
                Dump {| entry_timestamp := 1577836800 - off;
                        entry_content := lit "Hello [1] 2020 world" |};
                Text JSON_TAIL], 1%nat, Ok tt)).
  { transitivity
      ([Text JSON_HEAD;
        Dump {| entry_timestamp :=
                  unix_timestamp {| year := 2020; month := 1; day := 1;
                                    hour := 0; minute := 0; second := 0 |};
                entry_content := lit "Hello [1] 2020 world" |};
        Text JSON_TAIL], 1%nat, Ok tt); [reflexivity|].
    unfold unix_timestamp. rewrite (mktime_fixed_offset off _ Hoff).
    reflexivity. }
  rewrite Hharvest.
  rewrite (run_batches_single finish _ (1577836800 - off, lit "Hello  world")).
  - reflexivity.
  - cbn [entry_timestamp entry_content]. unfold clean_revision.
    rewrite Hstrip. cbn [mbind result_bind mret result_ret].
    rewrite (clean_doc_ascii (lit "Hello [1] 2020 world") Hlaw)
      by (apply ascii_lit_chars; reflexivity).
    reflexivity.
Qed.

Lemma scenario_follows_host_zone_witness :
  @numeric_ascii_digits ascii_cet_platform
  /\ @strip_code ascii_cet_platform (lit "Hello [1] 2020 world")
     = Ok (lit "Hello [1] 2020 world")
  /\ (forall u, @utcoffset ascii_cet_platform u = 3600)
  /\ @main ascii_cet_platform [scenario_page] (fun _ _ => 0) empty_disk
     = Some ({| collection_file :=
                  Some [Text JSON_HEAD;
                        Dump {| entry_timestamp := 1577833200;
                                entry_content := lit "Hello [1] 2020 world" |};
                        Text JSON_TAIL];
                clean_file :=
                  Some (JArr [JArr [JInt 1577833200;
                                    JStr (lit "Hello  world")]]) |},
             Ok tt).
Proof.
  assert (H1 : @numeric_ascii_digits ascii_cet_platform)
    by (intros c _; reflexivity).
  assert (H2 : @strip_code ascii_cet_platform (lit "Hello [1] 2020 world")
               = Ok (lit "Hello [1] 2020 world")) by reflexivity.
  assert (H3 : forall u, @utcoffset ascii_cet_platform u = 3600)
    by (intros u; reflexivity).
  split; [exact H1|]. split; [exact H2|]. split; [exact H3|].
  exact (@scenario_follows_host_zone ascii_cet_platform (fun _ _ => 0) 3600
           H1 H2 H3).
Defined.

(** ** The collection as an array, when every page has a revision to write *)




(** * Further properties *)

(** ** The dump variant *)

Lemma escape_chars (data : pystr) :
  Dump.escape data
  = flat_map (fun c => if (c =? 38)%N then lit "&amp;"
                       else if (c =? 60)%N then lit "&lt;"
                       else if (c =? 62)%N then lit "&gt;"
                       else [c]) data.
Proof.
  unfold Dump.escape, Dump.replace.
  induction data as [|c data IH]; [reflexivity|].
  cbn [flat_map]. rewrite !flat_map_app, IH.
  destruct (N.eqb_spec c 38) as [->|H38]; [reflexivity|].
  cbn [flat_map app].
  destruct (N.eqb_spec c 62) as [->|H62]; [reflexivity|].
  cbn [flat_map app].
  destruct (N.eqb_spec c 60) as [->|H60]; reflexivity.
Qed.

(** Escaped text has no angle bracket in it. *)
Lemma escape_no_angle_bracket (data : pystr) :
  (60%N ∉ Dump.escape data) /\ (62%N ∉ Dump.escape data).
Proof.
  rewrite escape_chars.
  induction data as [|c data [IH1 IH2]].
  - split; apply not_elem_of_nil.
  - cbn [flat_map]. rewrite !elem_of_app.
    destruct (N.eqb_spec c 38) as [->|H38];
      [|destruct (N.eqb_spec c 60) as [->|H60];
        [|destruct (N.eqb_spec c 62) as [->|H62]]];
      split; intros [Hin|Hin]; try contradiction;
      vm_compute lit in Hin;
      repeat (apply elem_of_cons in Hin as [Hin|Hin];
              [first [discriminate Hin | congruence]|]);
      exact (not_elem_of_nil _ Hin).
Qed.

Ltac escape_piece H :=
  vm_compute lit in H; cbn [app] in H.

(** X18. Escaping loses nothing: two texts with the same escaped form are the
    same text. *)
Theorem escape_injective (s1 s2 : pystr) :
  Dump.escape s1 = Dump.escape s2 -> s1 = s2.
Proof.
  rewrite !escape_chars. revert s2.
  induction s1 as [|c1 s1 IH]; intros [|c2 s2] Heq; cbn [flat_map] in Heq.
  - reflexivity.
  - exfalso. destruct (c2 =? 38)%N;
      [|destruct (c2 =? 60)%N; [|destruct (c2 =? 62)%N]];
      escape_piece Heq; discriminate Heq.
  - exfalso. destruct (c1 =? 38)%N;
      [|destruct (c1 =? 60)%N; [|destruct (c1 =? 62)%N]];
      escape_piece Heq; discriminate Heq.
  - destruct (N.eqb_spec c1 38) as [->|H1];
      [|destruct (N.eqb_spec c1 60) as [->|H2];
        [|destruct (N.eqb_spec c1 62) as [->|H3]]];
    (destruct (N.eqb_spec c2 38) as [->|K1];
      [|destruct (N.eqb_spec c2 60) as [->|K2];
        [|destruct (N.eqb_spec c2 62) as [->|K3]]]);
    escape_piece Heq;
    try discriminate Heq;
    try (injection Heq as Heq; f_equal; apply IH; exact Heq);
    try (injection Heq as Hc Heq; congruence).
    injection Heq as -> Heq. f_equal. apply IH. exact Heq.
Qed.

Lemma escape_injective_witness :
  Dump.escape (lit "a<b&c") = Dump.escape (lit "a<b&c")
  /\ lit "a<b&c" = lit "a<b&c".
Proof.
  split; [reflexivity|].
  exact (escape_injective (lit "a<b&c") (lit "a<b&c") eq_refl).
Defined.

(** X19. The escaped text is longer by four characters for each ampersand and
    by three for each angle bracket; a text without these is unchanged. *)
Theorem escape_length (data : pystr) :
  length (Dump.escape data)
  = (length data
     + 4 * length (List.filter (N.eqb 38) data)
     + 3 * length (List.filter (N.eqb 60) data)
     + 3 * length (List.filter (N.eqb 62) data))%nat
  /\ ((38%N ∉ data) -> (60%N ∉ data) -> (62%N ∉ data) ->
      Dump.escape data = data).
Proof.
  rewrite escape_chars. split.
  - induction data as [|c data IH]; [reflexivity|].
    cbn [flat_map List.filter]. rewrite length_app, IH.
    rewrite (N.eqb_sym 38 c), (N.eqb_sym 60 c), (N.eqb_sym 62 c).
    destruct (N.eqb_spec c 38) as [->|H1]; [cbn; lia|].
    destruct (N.eqb_spec c 60) as [->|H2]; [cbn; lia|].
    destruct (N.eqb_spec c 62) as [->|H3]; cbn; lia.
  - induction data as [|c data IH]; intros Ha Hl Hg; [reflexivity|].
    apply not_elem_of_cons in Ha as [Ha1 Ha2].
    apply not_elem_of_cons in Hl as [Hl1 Hl2].
    apply not_elem_of_cons in Hg as [Hg1 Hg2].
    cbn [flat_map]. rewrite (IH Ha2 Hl2 Hg2).
    destruct (N.eqb_spec c 38); [congruence|].
    destruct (N.eqb_spec c 60); [congruence|].
    destruct (N.eqb_spec c 62); [congruence|]. reflexivity.
Qed.

Lemma write_revisions_blocks (l : list Dump.revision) (f : list Dump.xwrite) :
  foldl (fun f revision =>
           Dump.write_revision f (Dump.revid revision) (Dump.timestamp revision)
                               (Dump.user revision) (Dump.userid revision)
                               (Dump.content revision)) f l
  = f ++ List.map Dump.block l.
Proof.
  revert f. induction l as [|r l IH]; intros f; cbn [foldl List.map].
  - symmetry. apply app_nil_r.
  - rewrite IH. unfold Dump.write_revision, Dump.block.
    rewrite <- app_assoc. reflexivity.
Qed.





Lemma complete_revisions_escaped (l : list Dump.api_revision) :
  Forall Dump.escaped_block (List.map Dump.block (Dump.complete_revisions l)).
Proof.
  induction l as [|rev l IH]; [constructor|].
  cbn [Dump.complete_revisions].
  destruct (Dump.rev_revid rev), (Dump.rev_timestamp rev),
    (Dump.rev_user rev) as [name|], (Dump.rev_userid rev),
    (Dump.rev_star rev) as [star|]; try exact IH.
  cbn [List.map]. constructor; [|exact IH].
  unfold Dump.block, Dump.escaped_block.
  cbn [Dump.user Dump.content].
  destruct (escape_no_angle_bracket name), (escape_no_angle_bracket star).
  repeat split; assumption.
Qed.

Lemma download_loop_escaped (responses : list Dump.api_response) (written : nat)
    (f : list Dump.xwrite) :
  Forall Dump.escaped_block f ->
  Forall Dump.escaped_block (Dump.download_loop responses written f).1.1.
Proof.
  revert written f. induction responses as [|data later IH]; intros written f Hf.
  - exact Hf.
  - cbn [Dump.download_loop]. rewrite write_revisions_blocks.
    assert (Hf' : Forall Dump.escaped_block
                    (f ++ List.map Dump.block
                            (Dump.complete_revisions (Dump.resp_revisions data))))
      by (apply Forall_app; split; [exact Hf | apply complete_revisions_escaped]).
    destruct (Dump.resp_continue data).
    + apply IH, Hf'.
    + cbn [fst]. apply Forall_app. split; [exact Hf'|].
      repeat constructor.
Qed.

(** X21. In the file of any run of the dump variant, ended well or not, no
    block has an angle bracket in its user name or in its text, and the size
    written in a block is the length of its text after escaping. *)
Theorem download_revisions_escaped (article_title : pystr)
    (responses : list Dump.api_response) :
  Forall Dump.escaped_block
    (Dump.download_revisions article_title responses).1.1.
Proof.
  unfold Dump.download_revisions. apply download_loop_escaped.
  repeat constructor.
Qed.

(** ** The cuts of the cleaner *)

Lemma startswith_nil_iff (m : pystr) : startswith [] m = true <-> m = [].
Proof. destruct m; cbn; split; congruence. Qed.

Lemma find_nil_none (m : pystr) : find [] m = -1 <-> m <> [].
Proof.
  unfold find. cbn [find_from]. destruct m as [|a m]; cbn [startswith].
  - split; [discriminate | congruence].
  - split; [discriminate | reflexivity].
Qed.

Lemma find_cons_none (c : N) (rest m : pystr) :
  find (c :: rest) m = -1
  <-> startswith (c :: rest) m = false /\ find rest m = -1.
Proof.
  unfold find. cbn [find_from]. change (0 + 1) with 1.
  destruct (startswith (c :: rest) m).
  - split; [discriminate | intros [? _]; discriminate].
  - destruct (find_from_shift m rest 1 ltac:(lia)) as [[H0 H1]|[H0 H1]].
    + rewrite H0, H1. split; [split; reflexivity | reflexivity].
    + rewrite H1. split; [lia | intros [_ ?]; lia].
Qed.

Lemma startswith_app (p k m : pystr) :
  startswith p m = true -> startswith (p ++ k) m = true.
Proof.
  revert p. induction m as [|a m IH]; intros p Hp; [reflexivity|].
  destruct p as [|c p]; [discriminate Hp|].
  cbn [app startswith] in *. apply andb_true_iff in Hp as [Hc Hp].
  rewrite Hc, (IH p Hp). reflexivity.
Qed.

Lemma startswith_true_prefix (d m : pystr) :
  startswith d m = true -> m `prefix_of` d.
Proof.
  revert d. induction m as [|a m IH]; intros d Hd; [apply prefix_nil|].
  destruct d as [|c d]; [discriminate Hd|].
  cbn [startswith] in Hd. apply andb_true_iff in Hd as [Hc Hd].
  apply N.eqb_eq in Hc as ->. apply prefix_cons, IH, Hd.
Qed.

Lemma find_app_none (p k m : pystr) : find (p ++ k) m = -1 -> find p m = -1.
Proof.
  induction p as [|c p IH]; intros Hfind.
  - apply find_nil_none. intros ->. unfold find in Hfind.
    destruct k; discriminate Hfind.
  - cbn [app] in Hfind. apply find_cons_none in Hfind as [Hsw Hrest].
    apply find_cons_none. split; [|apply IH, Hrest].
    destruct (startswith (c :: p) m) eqn:Hp; [|reflexivity].
    apply (startswith_app _ k) in Hp. cbn [app] in Hp. congruence.
Qed.

Lemma cut_no_marker (m doc : pystr) : m <> [] -> find (cut m doc) m = -1.
Proof.
  intros Hm. induction doc as [|c rest IH].
  - rewrite cut_nil. apply find_nil_none, Hm.
  - rewrite cut_cons. destruct (startswith (c :: rest) m) eqn:Hsw.
    + apply find_nil_none, Hm.
    + apply find_cons_none. split; [|exact IH].
      destruct (startswith (c :: cut m rest) m) eqn:Hcut; [|reflexivity].
      destruct (cut_prefix m rest) as [k Hk].
      apply (startswith_app _ k) in Hcut. cbn [app] in Hcut.
      rewrite <- Hk in Hcut. congruence.
Qed.

Lemma cut_absent (m doc : pystr) : find doc m = -1 -> cut m doc = doc.
Proof.
  intros Hfind. unfold cut, remove_everything_after. rewrite Hfind. reflexivity.
Qed.

Lemma cut_at_occurrence (m doc : pystr) :
  find doc m <> -1 -> (cut m doc ++ m) `prefix_of` doc.
Proof.
  induction doc as [|c rest IH]; intros Hfind.
  - rewrite cut_nil. cbn [app].
    destruct m as [|a m]; [apply prefix_nil|].
    exfalso. apply Hfind. apply find_nil_none. discriminate.
  - rewrite cut_cons. destruct (startswith (c :: rest) m) eqn:Hsw.
    + apply startswith_true_prefix, Hsw.
    + cbn [app]. apply prefix_cons, IH. intros Hrest. apply Hfind.
      apply find_cons_none. split; assumption.
Qed.

(** X1. One cut: the text kept is the part of the document before the first
    occurrence of the marker, the marker does not occur in it, and the flag
    says whether a cut was made; without an occurrence the document comes
    back whole. *)
Theorem remove_everything_after_spec (doc substr : pystr) :
  substr <> [] ->
  find (remove_everything_after doc substr).2 substr = -1
  /\ (remove_everything_after doc substr).2 `prefix_of` doc
  /\ (find doc substr <> -1 ->
      (remove_everything_after doc substr).1 = 1
      /\ ((remove_everything_after doc substr).2 ++ substr) `prefix_of` doc)
  /\ (find doc substr = -1 -> remove_everything_after doc substr = (0, doc)).
Proof.
  intros Hne. change (remove_everything_after doc substr).2 with (cut substr doc).
  split; [apply cut_no_marker, Hne|].
  split; [apply cut_prefix|].
  split.
  - intros Hfind. split; [|apply cut_at_occurrence, Hfind].
    unfold remove_everything_after.
    destruct (find doc substr =? -1) eqn:E; [apply Z.eqb_eq in E; congruence|].
    reflexivity.
  - intros Hfind. unfold remove_everything_after. rewrite Hfind. reflexivity.
Qed.

Lemma remove_everything_after_spec_witness :
  NOTES <> []
  /\ find (remove_everything_after (lit "Intro Notes" ++ [nl] ++ lit "1. x")
                                   NOTES).2 NOTES = -1.
Proof.
  assert (Hne : NOTES <> []) by discriminate.
  split; [exact Hne|].
  exact (proj1 (remove_everything_after_spec
                  (lit "Intro Notes" ++ [nl] ++ lit "1. x") NOTES Hne)).
Defined.

(** X2. After the three cuts none of the three headers is left in the
    text. *)
Theorem remove_sections_no_marker (doc : pystr) :
  find (remove_sections doc) NOTES = -1
  /\ find (remove_sections doc) EXTERNAL_LINKS = -1
  /\ find (remove_sections doc) REFERENCES = -1.
Proof.
  rewrite remove_sections_cuts.
  destruct (cut_prefix REFERENCES (cut EXTERNAL_LINKS (cut NOTES doc)))
    as [k1 Hk1].
  destruct (cut_prefix EXTERNAL_LINKS (cut NOTES doc)) as [k2 Hk2].
  assert (Hl : find (cut EXTERNAL_LINKS (cut NOTES doc)) EXTERNAL_LINKS = -1)
    by (apply cut_no_marker; discriminate).
  assert (Hn : find (cut NOTES doc) NOTES = -1)
    by (apply cut_no_marker; discriminate).
  split; [|split].
  - apply (find_app_none _ k1). rewrite <- Hk1.
    apply (find_app_none _ k2). rewrite <- Hk2. exact Hn.
  - apply (find_app_none _ k1). rewrite <- Hk1. exact Hl.
  - apply cut_no_marker. discriminate.
Qed.

(** X3. The three cuts change nothing in a text they have already cut. *)
Theorem remove_sections_idempotent (doc : pystr) :
  remove_sections (remove_sections doc) = remove_sections doc.
Proof.
  destruct (remove_sections_no_marker doc) as (Hn & Hl & Hr).
  rewrite (remove_sections_cuts (remove_sections doc)).
  rewrite (cut_absent NOTES _ Hn), (cut_absent EXTERNAL_LINKS _ Hl).
  apply cut_absent, Hr.
Qed.

(** ** Tokens *)


(** X5. Tokenizing the text that step 3 has joined gives back the tokens it
    kept: those of the document that are not numeric, in their order. *)
Theorem tokenize_remove_numbers `{Platform} (doc : pystr) :
  tokenize (remove_numbers doc)
  = List.filter (fun token => negb (isnumeric token)) (tokenize doc).
Proof.
  unfold remove_numbers. apply tokenize_join.
  apply Forall_filter_bool, tokenize_words.
Qed.

(** ** Citations *)

Lemma re_sub_scan_sublist (skip : nat) (doc : pystr) :
  re_sub_scan skip doc `sublist_of` doc.
Proof.
  revert skip. induction doc as [|c rest IH]; intros skip; [constructor|].
  cbn [re_sub_scan]. destruct skip as [|k].
  - destruct (match_citation (c :: rest)).
    + apply sublist_cons, IH.
    + apply sublist_skip, IH.
  - apply sublist_cons, IH.
Qed.

(** X6. Step 4 only deletes: its output is the input with some characters
    left out, in the same order; a text without an opening bracket is left
    as it is. *)
Theorem remove_citations_only_deletes (doc : pystr) :
  remove_citations doc `sublist_of` doc
  /\ ((91%N ∉ doc) -> remove_citations doc = doc).
Proof.
  split; [apply re_sub_scan_sublist|].
  unfold remove_citations. induction doc as [|c rest IH]; intros Hno;
    [reflexivity|].
  apply not_elem_of_cons in Hno as [Hc Hrest].
  cbn [re_sub_scan match_citation].
  destruct (N.eqb_spec c 91) as [->|_]; [congruence|].
  rewrite (IH Hrest). reflexivity.
Qed.

Lemma digits_then_close_run (ds rest : pystr) (seen : nat) :
  Forall (fun c => is_ascii_digit c = true) ds ->
  (seen + length ds <> 0)%nat ->
  digits_then_close (ds ++ 93%N :: rest) seen = Some (S (seen + length ds)).
Proof.
  intros Hds. revert seen. induction Hds as [|d ds Hd _ IH]; intros seen Hpos.
  - cbn [app digits_then_close length]. change (is_ascii_digit 93) with false.
    rewrite N.eqb_refl, Nat.add_0_r in *.
    destruct (Nat.eqb_spec seen 0); [congruence | reflexivity].
  - cbn [app digits_then_close length]. rewrite Hd.
    rewrite IH by (cbn [length] in Hpos; lia). f_equal. lia.
Qed.

Lemma re_sub_scan_skip (l rest : pystr) :
  re_sub_scan (length l) (l ++ rest) = re_sub_scan 0 rest.
Proof. induction l as [|c l IH]; [reflexivity | exact IH]. Qed.

(** X7. A bracketed run of one or more digits that is met with no opening
    bracket before it is deleted whole, and the scan goes on behind it. *)
Theorem remove_citations_deletes (pre ds rest : pystr) :
  (91%N ∉ pre) -> ds <> [] ->
  Forall (fun c => is_ascii_digit c = true) ds ->
  remove_citations (pre ++ [91%N] ++ ds ++ [93%N] ++ rest)
  = pre ++ remove_citations rest.
Proof.
  intros Hpre Hne Hds. unfold remove_citations.
  induction pre as [|c pre IH].
  - cbn [app re_sub_scan match_citation]. rewrite N.eqb_refl.
    rewrite (digits_then_close_run ds rest 0 Hds)
      by (destruct ds; [congruence | cbn [length]; lia]).
    cbn [fmap option_fmap option_map Nat.sub Nat.add].
    rewrite <- (re_sub_scan_skip (ds ++ [93%N]) rest).
    rewrite length_app, <- app_assoc. cbn [length app].
    replace (length ds + 1)%nat with (S (length ds)) by lia.
    rewrite ?Nat.sub_0_r. reflexivity.
  - apply not_elem_of_cons in Hpre as [Hc Hpre'].
    cbn [app re_sub_scan match_citation].
    destruct (N.eqb_spec c 91) as [->|_]; [congruence|].
    cbn [app] in IH. rewrite (IH Hpre'). reflexivity.
Qed.

Lemma remove_citations_deletes_witness :
  (91%N ∉ lit "see ") /\ lit "12" <> []
  /\ Forall (fun c => is_ascii_digit c = true) (lit "12")
  /\ remove_citations (lit "see [12] there") = lit "see  there".
Proof.
  assert (H1 : 91%N ∉ lit "see ").
  { vm_compute lit. rewrite !not_elem_of_cons.
    repeat split; try discriminate. apply not_elem_of_nil. }
  assert (H2 : lit "12" <> []) by discriminate.
  assert (H3 : Forall (fun c => is_ascii_digit c = true) (lit "12"))
    by (repeat constructor).
  split; [exact H1|]. split; [exact H2|]. split; [exact H3|].
  exact (remove_citations_deletes (lit "see ") (lit "12") (lit " there")
           H1 H2 H3).
Defined.

(** ** More on pass 1 *)




Lemma write_revisions_from_plain `{Platform} (l : list revision) (i len : Z)
    (f : file) :
  exists body,
    (write_revisions_from i len f l).1 = f ++ body
    /\ Forall record_or_separator body
    /\ (length (records body) <= length l)%nat
    /\ ((write_revisions_from i len f l).2 = Ok tt ->
        length (records body) = length l).
Proof.
  revert i f. induction l as [|r l IH]; intros i f.
  - exists []. cbn. rewrite app_nil_r. repeat split; constructor.
  - cbn [write_revisions_from].
    destruct (strptime (timestamp r)) as [dt|e].
    + set (e0 := {| entry_timestamp := unix_timestamp dt;
                    entry_content := content r |}).
      destruct (i <? len - 1).
      * destruct (IH (i + 1) ((f ++ [Dump e0]) ++ [Text SEPARATOR]))
          as (body & Hbody & Hplain & Hle & Heq).
        exists (Dump e0 :: Text SEPARATOR :: body).
        split; [rewrite Hbody, <- !app_assoc; reflexivity|].
        split; [constructor; [right; eexists; reflexivity|];
                constructor; [left; reflexivity | exact Hplain]|].
        cbn [records length].
        split; [lia | intros Hok; rewrite (Heq Hok); reflexivity].
      * destruct (IH (i + 1) (f ++ [Dump e0]))
          as (body & Hbody & Hplain & Hle & Heq).
        exists (Dump e0 :: body).
        split; [rewrite Hbody, <- !app_assoc; reflexivity|].
        split; [constructor; [right; eexists; reflexivity | exact Hplain]|].
        cbn [records length].
        split; [lia | intros Hok; rewrite (Heq Hok); reflexivity].
    + exists []. cbn [fst snd]. rewrite app_nil_r.
      split; [reflexivity|]. split; [constructor|].
      cbn [records length]. split; [lia | discriminate].
Qed.

Lemma harvest_loop_frame `{Platform} (responses : list api_response)
    (written : nat) (f : file) :
  exists body,
    Forall record_or_separator body
    /\ (written + length (records body)
        <= (harvest_loop responses written f).1.2)%nat
    /\ match (harvest_loop responses written f).2 with
       | Ok _ =>
           (harvest_loop responses written f).1.1 = f ++ body ++ [Text JSON_TAIL]
           /\ (harvest_loop responses written f).1.2
              = (written + length (records body))%nat
       | Raise _ => (harvest_loop responses written f).1.1 = f ++ body
       end.
Proof.
  revert written f. induction responses as [|data later IH]; intros written f.
  - exists []. cbn. rewrite app_nil_r. repeat split; [constructor | lia].
  - cbn [harvest_loop]. unfold write_revisions.
    destruct (write_revisions_from_plain
                (complete_revisions (resp_revisions data)) 0
                (Z.of_nat (length (complete_revisions (resp_revisions data)))) f)
      as (body1 & Hbody1 & Hplain1 & Hle1 & Heq1).
    destruct (write_revisions_from 0 _ f _) as [f1 [[]|e]];
      cbn [fst snd] in Hbody1, Heq1; subst f1.
    + specialize (Heq1 eq_refl).
      destruct (resp_continue data).
      * destruct (IH (written + length (complete_revisions (resp_revisions data)))%nat
                     ((f ++ body1) ++ [Text SEPARATOR]))
          as (body2 & Hplain2 & Hle2 & Hrest).
        exists (body1 ++ Text SEPARATOR :: body2).
        split; [apply Forall_app; split;
                [exact Hplain1 | constructor; [left; reflexivity | exact Hplain2]]|].
        rewrite records_app. cbn [records]. rewrite length_app.
        split; [lia|].
        destruct (harvest_loop later _ _) as [[f2 n2] [[]|e]];
          cbn [fst snd] in *.
        -- destruct Hrest as [-> ->]. rewrite <- !app_assoc.
           split; [reflexivity | lia].
        -- rewrite Hrest, <- !app_assoc. reflexivity.
      * exists body1. cbn [fst snd]. split; [exact Hplain1|].
        rewrite Heq1. split; [lia|]. rewrite <- app_assoc.
        split; reflexivity.
    + exists body1. cbn [fst snd]. split; [exact Hplain1|].
      split; [lia | reflexivity].
Qed.

(** X9. The frame of the collection file, for any run of the harvest: the
    head is written once, first; between head and tail there are only records
    and separators; the tail is written once, last, and only when the run
    ends without an exception. *)
Theorem harvest_frame `{Platform} (responses : list api_response) :
  exists body,
    Forall record_or_separator body
    /\ match (get_all_revision_ids responses).2 with
       | Ok _ =>
           (get_all_revision_ids responses).1.1
           = Text JSON_HEAD :: body ++ [Text JSON_TAIL]
       | Raise _ =>
           (get_all_revision_ids responses).1.1 = Text JSON_HEAD :: body
       end.
Proof.
  unfold get_all_revision_ids.
  destruct (harvest_loop_frame responses 0 [Text JSON_HEAD])
    as (body & Hplain & _ & Hshape).
  exists body. split; [exact Hplain|].
  destruct ((harvest_loop responses 0 [Text JSON_HEAD]).2).
  - destruct Hshape as [Hf _]. exact Hf.
  - exact Hshape.
Qed.

(** X10. The counter [revisions_written] is never behind the records in the
    file, and it is their number when the harvest ends without an
    exception. *)
Theorem harvest_counter `{Platform} (responses : list api_response) :
  (length (records (get_all_revision_ids responses).1.1)
   <= (get_all_revision_ids responses).1.2)%nat
  /\ ((get_all_revision_ids responses).2 = Ok tt ->
      (get_all_revision_ids responses).1.2
      = length (records (get_all_revision_ids responses).1.1)).
Proof.
  unfold get_all_revision_ids.
  destruct (harvest_loop_frame responses 0 [Text JSON_HEAD])
    as (body & Hplain & Hle & Hshape).
  destruct (harvest_loop responses 0 [Text JSON_HEAD]) as [[f n] [[]|e]];
    cbn [fst snd] in *.
  - destruct Hshape as [-> ->]. cbn [app records].
    rewrite records_app. cbn [records]. rewrite app_nil_r.
    split; [lia | reflexivity].
  - rewrite Hshape. cbn [app records]. split; [lia | discriminate].
Qed.

Lemma plain_tokens_unclosed (body : file) :
  Forall record_or_separator body -> TClose ∉ tokens body.
Proof.
  induction 1 as [|w body Hw _ IH]; [apply not_elem_of_nil|].
  destruct Hw as [-> | [e ->]]; cbn [tokens].
  - change (lex_text SEPARATOR) with [TComma]. cbn [app].
    rewrite not_elem_of_cons. split; [discriminate | exact IH].
  - rewrite not_elem_of_cons. split; [discriminate | exact IH].
Qed.

(** X11. A harvest that ends with an exception leaves a file that pass 2
    refuses: [clean_revisions_in_batches] raises on it and returns no
    list. *)
Theorem failed_harvest_is_refused `{Platform} (responses : list api_response)
    (finish : nat -> nat -> Z) (e : exception) :
  (get_all_revision_ids responses).2 = Raise e ->
  exists e',
    clean_revisions_in_batches finish (get_all_revision_ids responses).1.1
    = Some (Raise e').
Proof.
  intros Hraise. destruct (harvest_frame responses) as (body & Hplain & Hshape).
  rewrite Hraise in Hshape. rewrite Hshape.
  destruct (unclosed_file_raises finish body (plain_tokens_unclosed _ Hplain))
    as (run & e' & Hrun & Hout).
  exists e'. unfold clean_revisions_in_batches. rewrite Hrun.
  cbn [mbind option_bind]. rewrite Hout. reflexivity.
Qed.

Lemma failed_harvest_is_refused_witness :
  (@get_all_revision_ids ascii_utc_platform [page_mixed]).2
  = Raise ConnectionError
  /\ exists e',
       @clean_revisions_in_batches ascii_utc_platform (fun _ _ => 0)
         (@get_all_revision_ids ascii_utc_platform [page_mixed]).1.1
       = Some (Raise e').
Proof.
  assert (H1 : (@get_all_revision_ids ascii_utc_platform [page_mixed]).2
               = Raise ConnectionError) by reflexivity.
  split; [exact H1|].
  exact (@failed_harvest_is_refused ascii_utc_platform [page_mixed]
           (fun _ _ => 0) ConnectionError H1).
Defined.



(** ** Pass 2 on a closed collection *)

Lemma mapM_app {A B} (f : A -> result B) (l1 l2 : list A) :
  mapM f (l1 ++ l2)
  = match mapM f l1 with
    | Ok r1 => match mapM f l2 with
               | Ok r2 => Ok (r1 ++ r2)
               | Raise e => Raise e
               end
    | Raise e => Raise e
    end.
Proof.
  induction l1 as [|x l1 IH].
  - cbn [app]. change (mapM f []) with (Ok (@nil B)).
    destruct (mapM f l2); reflexivity.
  - cbn [app]. rewrite !mapM_cons, IH. destruct (f x); [|reflexivity].
    destruct (mapM f l1); [|reflexivity]. destruct (mapM f l2); reflexivity.
Qed.

Lemma mapM_clean_timestamps `{Platform} (l out : list (Z * pystr)) :
  mapM clean_revision l = Ok out -> List.map fst out = List.map fst l.
Proof.
  revert out. induction l as [|[t c] l IH]; intros out Hout.
  - injection Hout as <-. reflexivity.
  - rewrite mapM_cons in Hout. unfold clean_revision at 1 in Hout.
    destruct (strip_code c) as [text|e]; [|discriminate Hout].
    cbn [mbind result_bind mret result_ret] in Hout.
    destruct (mapM clean_revision l) as [ys|e]; [|discriminate Hout].
    injection Hout as <-. cbn [List.map fst]. rewrite (IH ys eq_refl).
    reflexivity.
Qed.

Lemma sort_within_chunks_fuel_nil (k : nat) : sort_within_chunks_fuel k [] = [].
Proof. destruct k; reflexivity. Qed.

Lemma sort_within_chunks_fuel_enough (k1 k2 : nat) (es : list revision_entry) :
  (length es <= k1)%nat -> (length es <= k2)%nat ->
  sort_within_chunks_fuel k1 es = sort_within_chunks_fuel k2 es.
Proof.
  revert k2 es. induction k1 as [|k1 IH]; intros k2 es H1 H2.
  - destruct es; [|cbn [length] in H1; lia].
    rewrite !sort_within_chunks_fuel_nil. reflexivity.
  - destruct es as [|e es]; [rewrite !sort_within_chunks_fuel_nil; reflexivity|].
    destruct k2 as [|k2]; [cbn [length] in H2; lia|].
    cbn [sort_within_chunks_fuel]. f_equal.
    apply IH; rewrite length_drop; cbn [length] in *; unfold chunk_size; lia.
Qed.

Lemma islice_last (n : nat) (es : list revision_entry) :
  (length es < n)%nat ->
  islice n {| it_position := AfterValue; it_input := rest_after es [TClose] |}
  = (Ok es, {| it_position := AtEnd; it_input := [] |}).
Proof.
  revert n. induction es as [|e es IH]; intros n Hn.
  - destruct n as [|k]; [lia|]. reflexivity.
  - destruct n as [|k]; [lia|].
    cbn [islice it_position it_input]. rewrite ijson_next_value.
    rewrite IH by (cbn [length] in Hn; lia). reflexivity.
Qed.

(** One read of a chunk from a closed array: the next [n] records when that
    many are left, else the records that are left, and then the end. *)
Lemma islice_records (n : nat) (it : iterator) (es : list revision_entry) :
  at_records it es ->
  islice (S n) it
  = if decide (S n <= length es)%nat
    then (Ok (take (S n) es),
          {| it_position := AfterValue;
             it_input := rest_after (drop (S n) es) [TClose] |})
    else (Ok es, {| it_position := AtEnd; it_input := [] |}).
Proof.
  intros [-> | ->]; destruct (decide (S n <= length es)%nat) as [Hle|Hgt].
  - apply islice_first_full, Hle.
  - destruct es as [|e es]; [reflexivity|].
    rewrite array_body_cons. cbn [islice it_position it_input ijson_next].
    rewrite islice_last by (cbn [length] in Hgt; lia). reflexivity.
  - apply islice_full, Hle.
  - apply islice_last. lia.
Qed.

Lemma batches_loop_at_end `{Platform} (finish : nat -> nat -> Z) (fuel : nat)
    (acc : list (Z * pystr)) (handed i : nat) :
  batches_loop (S fuel) finish {| it_position := AtEnd; it_input := [] |}
               acc handed i
  = Some {| clean_revisions := acc; submitted := handed; outcome := Ok tt |}.
Proof. reflexivity. Qed.

(** The loop on a closed array: it hands every record to the pool, one run of
    [chunk_size] after the other, and stops at the first revision that cannot
    be cleaned. *)
Lemma batches_loop_records `{Platform} (finish : nat -> nat -> Z) (k : nat) :
  forall (es : list revision_entry) (fuel : nat) (it : iterator)
         (acc : list (Z * pystr)) (handed i : nat),
    (length es <= k)%nat -> (length es < fuel)%nat -> at_records it es ->
    exists run,
      batches_loop fuel finish it acc handed i = Some run
      /\ match mapM clean_revision (sort_within_chunks_fuel k es) with
         | Ok out =>
             clean_revisions run = acc ++ out
             /\ outcome run = Ok tt
             /\ submitted run = (handed + length es)%nat
         | Raise e => outcome run = Raise e
         end.
Proof.
  induction k as [|k IH]; intros es fuel it acc handed i Hk Hfuel Hit.
  - destruct es; [|cbn [length] in Hk; lia].
    destruct fuel as [|fuel]; [lia|].
    cbn [batches_loop]. change chunk_size with 100%nat.
    rewrite (islice_records 99 it [] Hit). cbn [decide_rel length].
    rewrite decide_False by (cbn [length]; lia).
    eexists. split; [reflexivity|].
    cbn [sort_within_chunks_fuel clean_revisions outcome submitted length].
    change (mapM clean_revision []) with (Ok (@nil (Z * pystr))).
    cbv beta iota. rewrite app_nil_r, Nat.add_0_r. repeat split.
  - destruct fuel as [|fuel]; [lia|].
    cbn [batches_loop]. change chunk_size with 100%nat.
    rewrite (islice_records 99 it es Hit).
    destruct es as [|e0 es0].
    + rewrite decide_False by (cbn [length]; lia).
      eexists. split; [reflexivity|].
      cbn [sort_within_chunks_fuel clean_revisions outcome submitted length].
      change (mapM clean_revision []) with (Ok (@nil (Z * pystr))).
      cbv beta iota. rewrite app_nil_r, Nat.add_0_r. repeat split.
    + cbn [sort_within_chunks_fuel]. change chunk_size with 100%nat.
      rewrite mapM_app.
      destruct (decide (100 <= length (e0 :: es0))%nat) as [Hle|Hgt].
      * change (take 100 (e0 :: es0)) with (e0 :: take 99 es0).
        rewrite executor_map_mapM.
        destruct (mapM clean_revision (process_chunk (e0 :: take 99 es0)))
          as [res|err]; [|eexists; split; reflexivity].
        destruct (IH (drop 100 (e0 :: es0)) fuel
                    {| it_position := AfterValue;
                       it_input := rest_after (drop 100 (e0 :: es0)) [TClose] |}
                    (acc ++ res)
                    (handed + length (process_chunk (e0 :: take 99 es0)))%nat
                    (S i))
          as (run & Hrun & Hres).
        -- rewrite length_drop. cbn [length] in *. lia.
        -- rewrite length_drop. cbn [length] in *. lia.
        -- right. reflexivity.
        -- exists run. split; [exact Hrun|].
           destruct (mapM clean_revision
                       (sort_within_chunks_fuel k (drop 100 (e0 :: es0))))
             as [out|err]; [|exact Hres].
           destruct Hres as (Hacc & Hout & Hsub).
           rewrite Hacc, Hout, Hsub, <- app_assoc.
           repeat split.
           rewrite process_chunk_length, length_drop.
           change (e0 :: take 99 es0) with (take 100 (e0 :: es0)).
           rewrite length_take. lia.
      * rewrite take_ge, drop_ge by lia.
        rewrite sort_within_chunks_fuel_nil.
        change (mapM clean_revision []) with (Ok (@nil (Z * pystr))).
        rewrite executor_map_mapM.
        destruct (mapM clean_revision (process_chunk (e0 :: es0)))
          as [res|err]; [|eexists; split; reflexivity].
        destruct fuel as [|fuel]; [cbn [length] in Hfuel; lia|].
        rewrite batches_loop_at_end.
        eexists. split; [reflexivity|].
        cbn [clean_revisions outcome submitted].
        rewrite app_nil_r, process_chunk_length. repeat split.
Qed.

Lemma array_body_length (es : list revision_entry) :
  (length es <= length (array_body es))%nat.
Proof.
  induction es as [|e es IH]; [reflexivity|].
  cbn [array_body length]. destruct es; cbn [length] in *; lia.
Qed.

Lemma clean_revisions_in_batches_array `{Platform} (finish : nat -> nat -> Z)
    (f : file) (es : list revision_entry) :
  tokens f = TOpen :: array_body es ++ [TClose] ->
  clean_revisions_in_batches finish f
  = Some (mapM clean_revision (sort_within_chunks es)).
Proof.
  intros Htok. unfold clean_revisions_in_batches, run_batches.
  rewrite Htok, batches_loop_start.
  destruct (batches_loop_records finish (length es) es
              (S (length (TOpen :: array_body es ++ [TClose])))
              {| it_position := AfterOpen;
                 it_input := array_body es ++ [TClose] |} [] 0%nat 1%nat)
    as (run & Hrun & Hres).
  - lia.
  - cbn [length]. rewrite length_app. pose proof (array_body_length es). lia.
  - left. reflexivity.
  - rewrite Hrun. cbn [mbind option_bind]. unfold sort_within_chunks.
    destruct (mapM clean_revision (sort_within_chunks_fuel (length es) es))
      as [out|err].
    + destruct Hres as (Hacc & Hout & _). rewrite Hout, Hacc. reflexivity.
    + rewrite Hres. reflexivity.
Qed.

(** X13. Pass 2 on a closed collection returns the cleaned records of the
    file, sorted by timestamp inside each run of a hundred and never across
    runs; when a revision cannot be cleaned, the exception of the first such
    revision in that order is raised. *)
Theorem pass2_reads_collection `{Platform} (finish : nat -> nat -> Z)
    (f : file) (es : list revision_entry) :
  tokens f = TOpen :: array_body es ++ [TClose] ->
  clean_revisions_in_batches finish f
  = Some (mapM clean_revision (sort_within_chunks es)).
Proof. apply clean_revisions_in_batches_array. Qed.

Lemma pass2_reads_collection_witness :
  tokens [Text JSON_HEAD;
          Dump {| entry_timestamp := 2; entry_content := lit "b 2" |};
          Text SEPARATOR;
          Dump {| entry_timestamp := 1; entry_content := lit "a [1]" |};
          Text JSON_TAIL]
  = TOpen :: array_body [{| entry_timestamp := 2; entry_content := lit "b 2" |};
                         {| entry_timestamp := 1; entry_content := lit "a [1]" |}]
       ++ [TClose]
  /\ @clean_revisions_in_batches ascii_utc_platform (fun _ _ => 0)
       [Text JSON_HEAD;
        Dump {| entry_timestamp := 2; entry_content := lit "b 2" |};
        Text SEPARATOR;
        Dump {| entry_timestamp := 1; entry_content := lit "a [1]" |};
        Text JSON_TAIL]
     = Some (Ok [(1, lit "a "); (2, lit "b")]).
Proof.
  assert (H1 : tokens [Text JSON_HEAD;
                       Dump {| entry_timestamp := 2; entry_content := lit "b 2" |};
                       Text SEPARATOR;
                       Dump {| entry_timestamp := 1; entry_content := lit "a [1]" |};
                       Text JSON_TAIL]
               = TOpen :: array_body
                            [{| entry_timestamp := 2; entry_content := lit "b 2" |};
                             {| entry_timestamp := 1; entry_content := lit "a [1]" |}]
                    ++ [TClose]) by reflexivity.
  split; [exact H1|].
  rewrite (@pass2_reads_collection ascii_utc_platform (fun _ _ => 0) _ _ H1).
  reflexivity.
Defined.

Lemma Sorted_app_inv {A} (R : A -> A -> Prop) (l1 l2 : list A) :
  Sorted R (l1 ++ l2) -> Sorted R l1 /\ Sorted R l2.
Proof.
  induction l1 as [|x l1 IH]; intros Hs; [split; [constructor | exact Hs]|].
  cbn [app] in Hs. apply Sorted_inv in Hs as [Hs Hhd].
  destruct (IH Hs) as [H1 H2]. split; [|exact H2].
  constructor; [exact H1|].
  destruct l1; [constructor|]. inversion Hhd; subst. constructor. assumption.
Qed.

Lemma sorted_already {A} (key : A -> Z) (l : list A) :
  Sorted Z.le (List.map key l) -> sorted key l = l.
Proof.
  induction l as [|x l IH]; intros Hs; [reflexivity|].
  cbn [List.map] in Hs. apply Sorted_inv in Hs as [Hs Hhd].
  unfold sorted in *. cbn [foldr]. rewrite (IH Hs).
  destruct l as [|y l]; [reflexivity|].
  cbn [insort]. inversion Hhd as [|? ? Hle]; subst.
  apply Z.leb_le in Hle. rewrite Hle. reflexivity.
Qed.

Lemma sort_within_chunks_already (k : nat) (es : list revision_entry) :
  (length es <= k)%nat ->
  Sorted Z.le (List.map entry_timestamp es) ->
  sort_within_chunks_fuel k es
  = List.map (fun entry => (entry_timestamp entry, entry_content entry)) es.
Proof.
  revert es. induction k as [|k IH]; intros es Hk Hs.
  - destruct es; [reflexivity | cbn [length] in Hk; lia].
  - destruct es as [|e es]; [reflexivity|].
    cbn [sort_within_chunks_fuel].
    rewrite <- (take_drop chunk_size (e :: es)) in Hs.
    rewrite List.map_app in Hs. apply Sorted_app_inv in Hs as [Hs1 Hs2].
    rewrite IH by (try exact Hs2; rewrite length_drop; cbn [length] in *;
                   unfold chunk_size; lia).
    unfold process_chunk. rewrite (sorted_already _ _ Hs1).
    rewrite <- List.map_app, take_drop. reflexivity.
Qed.

(** X14. When the records of a closed collection are in ascending order of
    timestamp, as a harvest from oldest to newest leaves them, pass 2 returns
    their cleaned forms in the order of the file. *)
Theorem pass2_keeps_chronological_order `{Platform} (finish : nat -> nat -> Z)
    (f : file) (es : list revision_entry) :
  tokens f = TOpen :: array_body es ++ [TClose] ->
  Sorted Z.le (List.map entry_timestamp es) ->
  clean_revisions_in_batches finish f
  = Some (mapM clean_revision
            (List.map (fun entry => (entry_timestamp entry, entry_content entry))
                      es)).
Proof.
  intros Htok Hs. rewrite (clean_revisions_in_batches_array finish f es Htok).
  unfold sort_within_chunks.
  rewrite sort_within_chunks_already by (exact Hs || lia). reflexivity.
Qed.

Lemma pass2_keeps_chronological_order_witness :
  tokens [Text JSON_HEAD;
          Dump {| entry_timestamp := 1; entry_content := lit "a [1]" |};
          Text SEPARATOR;
          Dump {| entry_timestamp := 1; entry_content := lit "b 2" |};
          Text JSON_TAIL]
  = TOpen :: array_body [{| entry_timestamp := 1; entry_content := lit "a [1]" |};
                         {| entry_timestamp := 1; entry_content := lit "b 2" |}]
       ++ [TClose]
  /\ Sorted Z.le
       (List.map entry_timestamp
          [{| entry_timestamp := 1; entry_content := lit "a [1]" |};
           {| entry_timestamp := 1; entry_content := lit "b 2" |}])
  /\ @clean_revisions_in_batches ascii_utc_platform (fun _ _ => 0)
       [Text JSON_HEAD;
        Dump {| entry_timestamp := 1; entry_content := lit "a [1]" |};
        Text SEPARATOR;
        Dump {| entry_timestamp := 1; entry_content := lit "b 2" |};
        Text JSON_TAIL]
     = Some (Ok [(1, lit "a "); (1, lit "b")]).
Proof.
  assert (H1 : tokens [Text JSON_HEAD;
                       Dump {| entry_timestamp := 1; entry_content := lit "a [1]" |};
                       Text SEPARATOR;
                       Dump {| entry_timestamp := 1; entry_content := lit "b 2" |};
                       Text JSON_TAIL]
               = TOpen :: array_body
                            [{| entry_timestamp := 1; entry_content := lit "a [1]" |};
                             {| entry_timestamp := 1; entry_content := lit "b 2" |}]
                    ++ [TClose]) by reflexivity.
  assert (H2 : Sorted Z.le
                 (List.map entry_timestamp
                    [{| entry_timestamp := 1; entry_content := lit "a [1]" |};
                     {| entry_timestamp := 1; entry_content := lit "b 2" |}]))
    by (repeat constructor; cbn; lia).
  split; [exact H1|]. split; [exact H2|].
  rewrite (@pass2_keeps_chronological_order ascii_utc_platform (fun _ _ => 0)
             _ _ H1 H2).
  reflexivity.
Defined.

Lemma sort_within_chunks_timestamps (k : nat) (es : list revision_entry) :
  (length es <= k)%nat ->
  List.map fst (sort_within_chunks_fuel k es) ≡ₚ List.map entry_timestamp es.
Proof.
  revert es. induction k as [|k IH]; intros es Hk.
  - destruct es; [reflexivity | cbn [length] in Hk; lia].
  - destruct es as [|e es]; [reflexivity|].
    cbn [sort_within_chunks_fuel]. rewrite List.map_app.
    rewrite IH by (rewrite length_drop; cbn [length] in *;
                   unfold chunk_size; lia).
    unfold process_chunk. rewrite List.map_map. cbn [fst].
    rewrite <- (take_drop chunk_size (e :: es)) at 3.
    rewrite List.map_app. apply Permutation_app; [|reflexivity].
    apply Permutation_map, sorted_perm.
Qed.

(** X15. Pass 2 neither loses nor doubles a revision of a closed collection:
    the timestamps of the list it returns are those of the records of the
    file, each as many times, and there are as many results as records. *)
Theorem pass2_keeps_every_record `{Platform} (finish : nat -> nat -> Z)
    (f : file) (es : list revision_entry) (out : list (Z * pystr)) :
  tokens f = TOpen :: array_body es ++ [TClose] ->
  clean_revisions_in_batches finish f = Some (Ok out) ->
  List.map fst out ≡ₚ List.map entry_timestamp es
  /\ length out = length es.
Proof.
  intros Htok Hout.
  rewrite (clean_revisions_in_batches_array finish f es Htok) in Hout.
  injection Hout as Hout.
  assert (Hperm : List.map fst out ≡ₚ List.map entry_timestamp es).
  { rewrite (mapM_clean_timestamps _ _ Hout).
    apply sort_within_chunks_timestamps. lia. }
  split; [exact Hperm|].
  apply Permutation_length in Hperm. rewrite !length_map in Hperm. exact Hperm.
Qed.

Lemma pass2_keeps_every_record_witness :
  tokens [Text JSON_HEAD;
          Dump {| entry_timestamp := 2; entry_content := lit "b 2" |};
          Text SEPARATOR;
          Dump {| entry_timestamp := 1; entry_content := lit "a [1]" |};
          Text JSON_TAIL]
  = TOpen :: array_body [{| entry_timestamp := 2; entry_content := lit "b 2" |};
                         {| entry_timestamp := 1; entry_content := lit "a [1]" |}]
       ++ [TClose]
  /\ @clean_revisions_in_batches ascii_utc_platform (fun _ _ => 0)
       [Text JSON_HEAD;
        Dump {| entry_timestamp := 2; entry_content := lit "b 2" |};
        Text SEPARATOR;
        Dump {| entry_timestamp := 1; entry_content := lit "a [1]" |};
        Text JSON_TAIL]
     = Some (Ok [(1, lit "a "); (2, lit "b")])
  /\ length [(1, lit "a "); (2, lit "b")] = 2%nat.
Proof.
  assert (H1 : tokens [Text JSON_HEAD;
                       Dump {| entry_timestamp := 2; entry_content := lit "b 2" |};
                       Text SEPARATOR;
                       Dump {| entry_timestamp := 1; entry_content := lit "a [1]" |};
                       Text JSON_TAIL]
               = TOpen :: array_body
                            [{| entry_timestamp := 2; entry_content := lit "b 2" |};
                             {| entry_timestamp := 1; entry_content := lit "a [1]" |}]
                    ++ [TClose]) by reflexivity.
  assert (H2 : @clean_revisions_in_batches ascii_utc_platform (fun _ _ => 0)
                 [Text JSON_HEAD;
                  Dump {| entry_timestamp := 2; entry_content := lit "b 2" |};
                  Text SEPARATOR;
                  Dump {| entry_timestamp := 1; entry_content := lit "a [1]" |};
                  Text JSON_TAIL]
               = Some (Ok [(1, lit "a "); (2, lit "b")])) by reflexivity.
  split; [exact H1|]. split; [exact H2|].
  exact (proj2 (@pass2_keeps_every_record ascii_utc_platform (fun _ _ => 0)
                  _ _ _ H1 H2)).
Defined.

(** ** The whole pipeline *)



(** ** More on the latest-revision lookup *)

Lemma lookup_original_title_found (inner_dict : page_info)
    (before after : list normalized_entry) (entry : normalized_entry)
    (article_texts : gmap pystr pystr) (text : pystr) :
  Forall (fun e => contains (norm_to e) (title inner_dict) = false) before ->
  contains (norm_to entry) (title inner_dict) = true ->
  extract inner_dict = Some text ->
  lookup_original_title inner_dict (before ++ entry :: after) article_texts
  = <[norm_from entry := text]> article_texts.
Proof.
  intros Hbefore Hsub Hext. induction Hbefore as [|e before He _ IH].
  - cbn [app lookup_original_title]. rewrite Hsub, Hext. reflexivity.
  - cbn [app lookup_original_title]. rewrite He. exact IH.
Qed.

Lemma contains_refl (s : pystr) : contains s s = true.
Proof.
  unfold contains, find.
  assert (Hs : startswith s s = true).
  { induction s as [|c s IH]; [reflexivity|].
    cbn [startswith]. rewrite N.eqb_refl, IH. reflexivity. }
  destruct s; cbn [find_from]; rewrite ?Hs; reflexivity.
Qed.

(** X17. The lookup finds the text of the last page of the response under the
    requested title: when that page has an extract, a normalized entry has
    the title of the page as its target, and no entry before that one has a
    target that contains the title, the returned dict maps the title the
    entry comes from to the extract. *)
Theorem latest_revisions_finds_last_page (titles : list pystr)
    (earlier : list (pystr * page_info)) (page_id : pystr)
    (inner_dict : page_info) (before after : list normalized_entry)
    (entry : normalized_entry) (text : pystr) :
  Forall (fun e => contains (norm_to e) (title inner_dict) = false) before ->
  norm_to entry = title inner_dict ->
  extract inner_dict = Some text ->
  get_latest_revisions titles
    {| pages := earlier ++ [(page_id, inner_dict)];
       normalized := Some (before ++ entry :: after) |}
  !! norm_from entry = Some text.
Proof.
  intros Hbefore Hto Hext. unfold get_latest_revisions.
  cbn [pages normalized]. rewrite foldl_app. cbn [foldl].
  rewrite (lookup_original_title_found inner_dict before after entry _ text
             Hbefore); [apply lookup_insert_eq | | exact Hext].
  rewrite Hto. apply contains_refl.
Qed.

Lemma latest_revisions_finds_last_page_witness :
  Forall (fun e => contains (norm_to e) (lit "Knower (duo)") = false)
    [{| norm_from := lit "Ladilla_Rusa"; norm_to := lit "Ladilla Rusa" |}]
  /\ get_latest_revisions [lit "Ladilla_Rusa"; lit "Knower_(duo)"]
       {| pages := [(lit "1", {| title := lit "Ladilla Rusa";
                                 extract := Some (lit "band") |})]
                   ++ [(lit "2", {| title := lit "Knower (duo)";
                                    extract := Some (lit "duo") |})];
          normalized :=
            Some ([{| norm_from := lit "Ladilla_Rusa";
                      norm_to := lit "Ladilla Rusa" |}]
                    ++ {| norm_from := lit "Knower_(duo)";
                          norm_to := lit "Knower (duo)" |} :: []) |}
     !! lit "Knower_(duo)" = Some (lit "duo").
Proof.
  assert (H1 : Forall (fun e => contains (norm_to e) (lit "Knower (duo)") = false)
                 [{| norm_from := lit "Ladilla_Rusa";
                     norm_to := lit "Ladilla Rusa" |}])
    by (repeat constructor).
  split; [exact H1|].
  exact (latest_revisions_finds_last_page
           [lit "Ladilla_Rusa"; lit "Knower_(duo)"]
           [(lit "1", {| title := lit "Ladilla Rusa";
                         extract := Some (lit "band") |})]
           (lit "2")
           {| title := lit "Knower (duo)"; extract := Some (lit "duo") |}
           [{| norm_from := lit "Ladilla_Rusa"; norm_to := lit "Ladilla Rusa" |}]
           []
           {| norm_from := lit "Knower_(duo)"; norm_to := lit "Knower (duo)" |}
           (lit "duo") H1 eq_refl eq_refl).
Defined.

(** ** The cleaner on plain prose *)




